(** * Smart Complaint System: classifier and SLA calculator

    A shallow embedding of [src/lib/ai-engine.ts] (keyword classifier,
    priority rules, keyword extraction, pattern analytics) and of the SLA
    helpers of [src/lib/utils.ts] ([calculateSLADeadline], [getSLAStatus]),
    followed by the properties the specification states about them.
    The sentiment heuristic, [truncate], [isSLABreached] and the routing
    part of [createComplaint] ([src/services/complaints.service.ts]) are
    embedded too, with further properties read off the code.

    Conventions.
    - A JavaScript string is the list of its UTF-16 code units ([jsstring]).
    - A JavaScript object used as a dictionary is an association list in
      insertion order, which is the order [Object.keys] and [Object.entries]
      enumerate its (non-numeric) keys in.
    - Scores and counts are integers ([Z]); where the source divides or
      multiplies by a fraction the arithmetic is done on binary64 floats
      ([PrimFloat]), as JavaScript does.
    - A [Date] is its time value in milliseconds since the epoch, or
      [None] for an Invalid Date.  The sums and products that the Date
      operations take on time values are rounded to binary64 as
      ECMAScript does; the rounding is defined on the rationals
      ([roundNumber]), where it can be reasoned about for every input.
    - A statement that would raise a [TypeError] makes the function return
      [None]. *)

From Stdlib Require Import ZArith NArith QArith Qround Qminmax Qabs Qpower.
From Stdlib Require Import Bool List Lia.
From Stdlib Require Import Ascii String Floats Uint63.
From Stdlib Require Import Sorting.Sorted Sorting.Permutation.
Import ListNotations.

Local Open Scope Z_scope.

(** ** JavaScript strings *)

Module JsString.

Definition jsstring := list N.

(** A string literal of the source, as code units. *)
Definition str (s : string) : jsstring :=
  map N_of_ascii (list_ascii_of_string s).

Fixpoint eqb (a b : jsstring) : bool :=
  match a, b with
  | [], [] => true
  | x :: a', y :: b' => N.eqb x y && eqb a' b'
  | _, _ => false
  end.

(** [s.startsWith(kw)] *)
Fixpoint startsWith (s kw : jsstring) : bool :=
  match kw, s with
  | [], _ => true
  | _ :: _, [] => false
  | k :: kw', c :: s' => N.eqb c k && startsWith s' kw'
  end.

(** [s.includes(kw)]: [kw] occurs in [s] as a contiguous substring. *)
Fixpoint includes (s kw : jsstring) : bool :=
  startsWith s kw ||
  match s with
  | [] => false
  | _ :: s' => includes s' kw
  end.

(** [arr.includes(x)] on an array of strings. *)
Definition arrIncludes (arr : list jsstring) (x : jsstring) : bool :=
  existsb (eqb x) arr.

(** [s.split(sep)] for a one-unit separator. *)
Fixpoint split (sep : N) (s : jsstring) : list jsstring :=
  match s with
  | [] => [[]]
  | c :: s' =>
      if N.eqb c sep then [] :: split sep s'
      else match split sep s' with
           | [] => [[c]]
           | w :: ws => (c :: w) :: ws
           end
  end.

(** The regular expression class [\s], which is also the set of units
    [String.prototype.trim] strips: WhiteSpace and LineTerminator. *)
Definition isWhiteSpace (c : N) : bool :=
  ((9 <=? c) && (c <=? 13) || (c =? 32) || (c =? 160) || (c =? 5760)
   || (8192 <=? c) && (c <=? 8202) || (c =? 8232) || (c =? 8233)
   || (c =? 8239) || (c =? 8287) || (c =? 12288) || (c =? 65279))%N.

(** The class [[a-z0-9\s-]] of the preprocessing regular expression. *)
Definition isKept (c : N) : bool :=
  ((97 <=? c) && (c <=? 122) || (48 <=? c) && (c <=? 57)
   || isWhiteSpace c || (c =? 45))%N.

(** [String.prototype.toLowerCase], one code unit at a time.  Only the
    mappings whose image meets ASCII are spelled out: [A-Z], the Kelvin
    sign U+212A (to [k]) and U+0130 (to [i] followed by U+0307).  Every
    other unit lower-cases to units outside ASCII that are white space
    exactly when the original is, so it is left in place: the
    replacement that follows in [preprocessText] blanks it either way. *)
Definition lowerUnit (c : N) : list N :=
  (if (65 <=? c) && (c <=? 90) then [c + 32]
   else if c =? 8490 then [107]
   else if c =? 304 then [105; 775]
   else [c])%N.

Definition toLowerCase (s : jsstring) : jsstring := flat_map lowerUnit s.

(** [s.replace(/[^a-z0-9\s-]/g, ' ')] *)
Definition blankUnit (c : N) : N := if isKept c then c else 32%N.

Definition replaceNonWord (s : jsstring) : jsstring := map blankUnit s.

Fixpoint trimStart (s : jsstring) : jsstring :=
  match s with
  | [] => []
  | c :: s' => if isWhiteSpace c then trimStart s' else s
  end.

Definition trimEnd (s : jsstring) : jsstring := rev (trimStart (rev s)).

Definition trim (s : jsstring) : jsstring := trimEnd (trimStart s).

End JsString.

Import JsString.

(** ** Domain types ([src/types/index.ts]) *)

Inductive ComplaintCategory :=
| water | electrical | internet | infrastructure
| sanitation | security | maintenance | other.

Inductive Priority := urgent | high | normal | low.

Definition ComplaintCategory_eqb (a b : ComplaintCategory) : bool :=
  match a, b with
  | water, water | electrical, electrical | internet, internet
  | infrastructure, infrastructure | sanitation, sanitation
  | security, security | maintenance, maintenance | other, other => true
  | _, _ => false
  end.

(** The string each category tag is at run time. *)
Definition categoryName (c : ComplaintCategory) : jsstring :=
  match c with
  | water => str "water"
  | electrical => str "electrical"
  | internet => str "internet"
  | infrastructure => str "infrastructure"
  | sanitation => str "sanitation"
  | security => str "security"
  | maintenance => str "maintenance"
  | other => str "other"
  end.

(** ** Keyword dictionaries *)

Definition CATEGORY_KEYWORDS : list (ComplaintCategory * list jsstring) :=
  [ (water, map str
      ["water"; "pipe"; "leak"; "flood"; "drain"; "sewage"; "tap"; "supply";
       "plumbing"; "overflow"; "blockage"; "contamination"; "dirty water";
       "no water"; "water cut"; "burst pipe"; "moisture"; "damp"]%string);
    (electrical, map str
      ["electricity"; "electric"; "power"; "light"; "bulb"; "wiring"; "socket";
       "switch"; "fuse"; "transformer"; "outage"; "blackout"; "short circuit";
       "voltage"; "generator"; "meter"; "sparks"; "shock"; "no power"]%string);
    (internet, map str
      ["internet"; "wifi"; "network"; "connection"; "broadband"; "router";
       "signal"; "slow internet"; "disconnected"; "bandwidth"; "cable";
       "fiber"; "lan"; "modem"; "connectivity"; "online"; "offline"]%string);
    (infrastructure, map str
      ["road"; "pothole"; "bridge"; "building"; "wall"; "ceiling"; "floor";
       "crack"; "construction"; "pavement"; "sidewalk"; "parking"; "gate";
       "fence"; "roof"; "structure"; "foundation"; "elevator"; "lift"]%string);
    (sanitation, map str
      ["garbage"; "waste"; "trash"; "dustbin"; "cleaning"; "hygiene"; "toilet";
       "bathroom"; "restroom"; "smell"; "odor"; "pest"; "rat"; "cockroach";
       "mosquito"; "dirty"; "filth"; "sweep"; "litter"]%string);
    (security, map str
      ["security"; "theft"; "robbery"; "vandalism"; "cctv"; "camera"; "guard";
       "safety"; "danger"; "threat"; "suspicious"; "break-in"; "trespassing";
       "harassment"; "violence"; "crime"; "police"; "emergency"]%string);
    (maintenance, map str
      ["maintenance"; "repair"; "broken"; "damaged"; "worn"; "old"; "replace";
       "fix"; "service"; "equipment"; "machine"; "appliance"; "furniture";
       "door"; "window"; "lock"; "hinge"; "paint"; "renovation"]%string);
    (other, []) ].

Definition URGENT_KEYWORDS : list jsstring := map str
  ["urgent"; "emergency"; "critical"; "immediately"; "asap"; "dangerous";
   "hazardous"; "life-threatening"; "fire"; "flood"; "explosion"; "gas leak";
   "electric shock"; "accident"; "injury"; "blood"; "collapse"; "fallen"]%string.

Definition HIGH_KEYWORDS : list jsstring := map str
  ["broken"; "not working"; "completely"; "totally"; "severe"; "major";
   "serious"; "significant"; "important"; "affecting many"; "multiple";
   "days"; "week"; "unbearable"; "intolerable"; "health risk"]%string.

Definition LOW_KEYWORDS : list jsstring := map str
  ["minor"; "small"; "slight"; "little"; "cosmetic"; "aesthetic"; "suggestion";
   "improvement"; "enhancement"; "when possible"; "not urgent";
   "low priority"]%string.

(** ** Text preprocessing *)

Definition preprocessText (text : jsstring) : jsstring :=
  trim (replaceNonWord (toLowerCase text)).

(** ** Priority determination *)

(** The category defaults, a [Partial<Record<ComplaintCategory, Priority>>]:
    [other] has no entry. *)
Definition categoryPriorities (c : ComplaintCategory) : option Priority :=
  match c with
  | electrical => Some high
  | water => Some high
  | security => Some high
  | infrastructure => Some normal
  | internet => Some normal
  | sanitation => Some normal
  | maintenance => Some low
  | other => None
  end.

(** Each [for (const kw of L) if (processed.includes(kw)) return p] loop
    is an [existsb]: it returns at the first keyword that matches. *)
Definition determinePriority (text : jsstring) (_category : ComplaintCategory)
  : Priority :=
  let processed := preprocessText text in
  if existsb (includes processed) URGENT_KEYWORDS then urgent
  else if existsb (includes processed) HIGH_KEYWORDS then high
  else if existsb (includes processed) LOW_KEYWORDS then low
  else match categoryPriorities _category with
       | Some p => p
       | None => normal
       end.

(** ** JavaScript numbers, arrays and objects *)

Module JsNumber.

Local Open Scope float_scope.

(** An integer as a Number (exact below [2^53]). *)
Definition ofZ (z : Z) : float :=
  if (z <? 0)%Z then - of_uint63 (Uint63.of_Z (- z))
  else of_uint63 (Uint63.of_Z z).

(** The literals [0.3] and [0.8] of the source, as the nearest doubles. *)
Definition lit_0_3 : float := 0x1.3333333333333p-2.
Definition lit_0_8 : float := 0x1.999999999999ap-1.

Definition Math_min (a b : float) : float :=
  if is_nan a || is_nan b then nan
  else if a <? b then a
  else if b <? a then b
  else if get_sign a then a else b.

Definition Math_max (a b : float) : float :=
  if is_nan a || is_nan b then nan
  else if a <? b then b
  else if b <? a then a
  else if get_sign a then b else a.

(** [Math.round]: the integer nearest to [x], halves going up, that is
    the floor of [x + 1/2] computed exactly from the mantissa and the
    exponent of [x].  The result is kept as an integer; the callers
    below only round finite values (for a NaN or an infinity, which
    [Math.round] returns unchanged, this gives [0]). *)
Definition Math_round (x : float) : Z :=
  match Prim2SF x with
  | S754_finite s m e =>
      let n := if s then Z.neg m else Z.pos m in
      if (0 <=? e)%Z then (n * 2 ^ e)%Z
      else ((2 * n + 2 ^ (- e)) / 2 ^ (- e + 1))%Z
  | _ => 0%Z
  end.

End JsNumber.

Import JsNumber.

Section JsArray.

Context {A : Type}.
Variable compareFn : A -> A -> Z.

(** [Array.prototype.sort(compareFn)] is a stable sort: [a] is placed
    before [b] when [compareFn a b < 0], and elements that compare equal
    keep their order.  Insertion from the right realises it. *)
Fixpoint insertSorted (x : A) (l : list A) : list A :=
  match l with
  | [] => [x]
  | y :: l' =>
      if compareFn x y <=? 0 then x :: l else y :: insertSorted x l'
  end.

Definition sort (l : list A) : list A := fold_right insertSorted [] l.

End JsArray.

Section JsObject.

Context {K V : Type}.
Variable keqb : K -> K -> bool.

(** [o[k]], [None] standing for [undefined]. *)
Fixpoint objGet (o : list (K * V)) (k : K) : option V :=
  match o with
  | [] => None
  | (k', v) :: o' => if keqb k' k then Some v else objGet o' k
  end.

(** [o[k] = v]: an existing key keeps its place, a new one goes last. *)
Fixpoint objSet (o : list (K * V)) (k : K) (v : V) : list (K * V) :=
  match o with
  | [] => [(k, v)]
  | (k', v') :: o' =>
      if keqb k' k then (k', v) :: o' else (k', v') :: objSet o' k v
  end.

End JsObject.

(** [x ?? d] *)
Definition orElse {A : Type} (x : option A) (d : A) : A :=
  match x with
  | Some a => a
  | None => d
  end.

(** ** Keyword extraction *)

Definition pushIfNew (processed : jsstring) (found : list jsstring)
  (kw : jsstring) : list jsstring :=
  if includes processed kw && negb (arrIncludes found kw)
  then found ++ [kw] else found.

Definition extractKeywords (text : jsstring) : list jsstring :=
  let processed := preprocessText text in
  let found :=
    fold_left (fun found entry => fold_left (pushIfNew processed) (snd entry) found)
              CATEGORY_KEYWORDS [] in
  let found :=
    fold_left (pushIfNew processed) (URGENT_KEYWORDS ++ HIGH_KEYWORDS) found in
  firstn 10 found.

(** ** Category classification *)

(** [CATEGORY_KEYWORDS[category]]; the table has an entry for every tag. *)
Definition keywordsOf (category : ComplaintCategory) : list jsstring :=
  orElse (objGet ComplaintCategory_eqb CATEGORY_KEYWORDS category) [].

(** [kw.split(' ').length > 1 ? 2 : 1] *)
Definition keywordWeight (kw : jsstring) : Z :=
  if (1 <? List.length (split 32 kw))%nat then 2 else 1.

(** The body of the scoring loop. *)
Definition scoreStep (processed : jsstring) (score : Z) (kw : jsstring) : Z :=
  if includes processed kw then score + keywordWeight kw else score.

Definition scoreCategory (text : jsstring) (category : ComplaintCategory) : Z :=
  let processed := preprocessText text in
  fold_left (scoreStep processed) (keywordsOf category) 0.

Record CategoryResult := {
  cr_category : ComplaintCategory;
  cr_confidence : float
}.

(** The scoring loop of [classifyCategory]: the [scores] object and the
    running [totalScore]. *)
Definition scoreAll (text : jsstring)
  : list (ComplaintCategory * Z) * Z :=
  fold_left
    (fun (st : list (ComplaintCategory * Z) * Z) cat =>
       let (scores, totalScore) := st in
       if ComplaintCategory_eqb cat other then st
       else
         let scores' :=
           objSet ComplaintCategory_eqb scores cat (scoreCategory text cat) in
         (scores',
          totalScore + orElse (objGet ComplaintCategory_eqb scores' cat) 0))
    (map fst CATEGORY_KEYWORDS) ([], 0).

Definition classifyCategory (text : jsstring) : option CategoryResult :=
  let (scores, totalScore) := scoreAll text in
  if totalScore =? 0 then
    Some {| cr_category := other; cr_confidence := lit_0_3 |}
  else
    let sorted := sort (fun a b => snd b - snd a) scores in
    match sorted with
    | [] => None (* destructuring [sorted[0]] would throw *)
    | (topCategory, topScore) :: _ =>
        let confidence :=
          Math_min (ofZ topScore / Math_max (ofZ totalScore * lit_0_8) 1) 1 in
        Some {| cr_category := topCategory;
                cr_confidence :=
                  (ofZ (Math_round (confidence * 100)) / 100)%float |}
    end.

(** ** Full classification *)

Record DepartmentDescriptor := {
  dept_id : jsstring;
  dept_categories : list jsstring
}.

Record AIClassificationResult := {
  category : ComplaintCategory;
  confidence : float;
  priority : Priority;
  keywords : list jsstring;
  suggestedDepartmentId : option jsstring
}.

Definition classifyComplaint (title description : jsstring)
  (departments : list DepartmentDescriptor) : option AIClassificationResult :=
  let fullText := title ++ [32%N] ++ description in
  match classifyCategory fullText with
  | None => None
  | Some r =>
      let category := cr_category r in
      let priority := determinePriority fullText category in
      let keywords := extractKeywords fullText in
      let suggestedDepartment :=
        find (fun d => arrIncludes (dept_categories d) (categoryName category))
             departments in
      Some {| category := category;
              confidence := cr_confidence r;
              priority := priority;
              keywords := keywords;
              suggestedDepartmentId := option_map dept_id suggestedDepartment |}
  end.

(** ** Dates *)

Module JsDate.

(** The time value of a [Date] object; [None] is an Invalid Date. *)
Definition Date := option Z.

Definition msPerSecond : Z := 1000.
Definition msPerMinute : Z := 60000.
Definition msPerHour : Z := 3600000.
Definition msPerDay : Z := 86400000.

Definition Day (t : Z) : Z := t / msPerDay.
Definition HourFromTime (t : Z) : Z := (t / msPerHour) mod 24.
Definition MinFromTime (t : Z) : Z := (t / msPerMinute) mod 60.
Definition SecFromTime (t : Z) : Z := (t / msPerSecond) mod 60.
Definition msFromTime (t : Z) : Z := t mod msPerSecond.
Definition WeekDay (t : Z) : Z := (Day t + 4) mod 7.

(** *** Number arithmetic on time values

    ECMAScript evaluates [MakeTime], [MakeDate] and [UTC] on Numbers,
    rounding every product and sum to the nearest binary64 value, ties
    to the even mantissa.  [roundNumber] is that rounding on the
    rationals.  The exponent has no upper limit here: where a Number
    would overflow to an infinity the model keeps a finite value far
    beyond the range of [TimeClip], which makes an Invalid Date of
    both. *)

(** The integer nearest to [y], a tie going to the even one. *)
Definition roundEven (y : Q) : Z :=
  let f := Qfloor y in
  match (y - inject_Z f ?= 1 # 2)%Q with
  | Lt => f
  | Gt => f + 1
  | Eq => if Z.even f then f else f + 1
  end.

(** The exponent [e] with [2^e <= a < 2^(e+1)], for a positive [a]. *)
Definition floorLog2 (a : Q) : Z :=
  let ln := Z.log2 (Qnum a) in
  let ld := Z.log2 (Z.pos (Qden a)) in
  if 2 ^ ln * Z.pos (Qden a) <=? Qnum a * 2 ^ ld then ln - ld else ln - ld - 1.

(** A positive [a] to 53 significant bits, and to a multiple of
    [2^-1074] in the subnormal range. *)
Definition roundPositive (a : Q) : Q :=
  let e := Z.max (floorLog2 a - 52) (-1074) in
  (inject_Z (roundEven (a * 2 ^ (- e))) * 2 ^ e)%Q.

Definition roundNumber (x : Q) : Q :=
  match (Qnum x ?= 0)%Z with
  | Eq => 0%Q
  | Lt => (- roundPositive (- x))%Q
  | Gt => roundPositive x
  end.

(** The Number nearest to an integer is an integer again
    ([roundNumber_integer] below). *)
Definition roundInteger (z : Z) : Z := Qfloor (roundNumber (inject_Z z)).

(** [a + b], [a - b] and [a * b] on integral Numbers. *)
Definition Number_add (a b : Z) : Z := roundInteger (a + b).
Definition Number_subtract (a b : Z) : Z := roundInteger (a - b).
Definition Number_multiply (a b : Z) : Z := roundInteger (a * b).

(** [((hour * msPerHour + min * msPerMinute) + sec * msPerSecond) + ms],
    "performing the arithmetic according to IEEE 754-2019 rules". *)
Definition MakeTime (hour min sec ms : Z) : Z :=
  Number_add
    (Number_add
       (Number_add (Number_multiply hour msPerHour)
                   (Number_multiply min msPerMinute))
       (Number_multiply sec msPerSecond))
    ms.

Definition MakeDate (day time : Z) : Z :=
  Number_add (Number_multiply day msPerDay) time.

Definition TimeClip (t : Z) : Date :=
  if 8640000000000000 <? Z.abs t then None else Some t.

(** Truncation toward zero of a finite Number. *)
Definition ToIntegerOrInfinity (x : Q) : Z := Z.quot (Qnum x) (Z.pos (Qden x)).

(** [new Date(value)] for a [Date] object [value]: a copy of its time
    value, clipped. *)
Definition newDate (value : Date) : Date :=
  match value with
  | Some t => TimeClip t
  | None => None
  end.

(** [d.getTime()], [None] standing for NaN. *)
Definition getTime (d : Date) : option Z := d.

Section HostTimeZone.

(** The offset of local time from UTC in milliseconds, at a UTC time
    value ([true]) or at a local time value ([false]). *)
Variable LocalTZA : Z -> bool -> Z.

(** The time value of a [Date] is at most [8.64e15] in magnitude and
    the offset of a time zone is below a day, so this sum stays below
    [2^53] and is exact. *)
Definition LocalTime (t : Z) : Z := t + LocalTZA t true.
Definition UTC (t : Z) : Z := Number_subtract t (LocalTZA t false).

(** [d.getHours()] *)
Definition getHours (d : Date) : option Z :=
  option_map (fun t => HourFromTime (LocalTime t)) d.

(** [d.setHours(hour)]; a finite Number is a rational, [None] is NaN.
    The hour is truncated to an integer by [MakeTime]. *)
Definition setHours (d : Date) (hour : option Q) : Date :=
  match d, hour with
  | Some t, Some h =>
      let t' := LocalTime t in
      TimeClip
        (UTC (MakeDate (Day t')
                (MakeTime (ToIntegerOrInfinity h) (MinFromTime t')
                   (SecFromTime t') (msFromTime t'))))
  | _, _ => None
  end.

(** [d.toLocaleDateString('en-US', { weekday: 'long' })] *)
Definition weekdayLong (d : Date) : jsstring :=
  match d with
  | None => str "Invalid Date"
  | Some t =>
      let w := WeekDay (LocalTime t) in
      if w =? 0 then str "Sunday"
      else if w =? 1 then str "Monday"
      else if w =? 2 then str "Tuesday"
      else if w =? 3 then str "Wednesday"
      else if w =? 4 then str "Thursday"
      else if w =? 5 then str "Friday"
      else str "Saturday"
  end.

End HostTimeZone.

End JsDate.

Import JsDate.

(** ** SLA calculator ([src/lib/utils.ts]) *)

Inductive SLAStatus := ok | warning | breached.

(** [slaHours] is a finite Number; the sum [getHours() + slaHours] is
    a Number too, the exact sum rounded. *)
Definition calculateSLADeadline (LocalTZA : Z -> bool -> Z)
  (createdAt : Date) (slaHours : Q) : Date :=
  let deadline := newDate createdAt in
  setHours LocalTZA deadline
    (option_map (fun h => roundNumber (inject_Z h + slaHours))
       (getHours LocalTZA deadline)).

Definition Qltb (a b : Q) : bool := negb (Qle_bool b a).

(** [now] is the value of [new Date()] at the call.  The quotient
    [hoursLeft] is compared with [0] and [4] only, which the double
    quotient of an integer number of milliseconds does like the exact one. *)
Definition getSLAStatus (deadline : Date) (now : Z) : SLAStatus :=
  match getTime deadline with
  | None => ok (* NaN compares false with everything *)
  | Some d =>
      let diff := d - now in
      let hoursLeft := (inject_Z diff / inject_Z (1000 * 60 * 60))%Q in
      if Qltb hoursLeft 0 then breached
      else if Qltb hoursLeft 4 then warning
      else ok
  end.

(** ** Pattern analysis *)

Record Complaint := {
  c_category : ComplaintCategory;
  c_createdAt : Date
}.

Inductive Trend := increasing | stable | decreasing.

Record PatternInsight := {
  pi_category : ComplaintCategory;
  pi_frequency : Z;
  pi_trend : Trend;
  pi_peakDays : list jsstring;
  pi_recommendation : jsstring
}.

Section PatternAnalysis.

Variable LocalTZA : Z -> bool -> Z.

Definition CountState : Type :=
  list (ComplaintCategory * Z)
  * list (ComplaintCategory * list (jsstring * Z)).

(** The body of the counting loop. *)
Definition countStep (st : CountState) (c : Complaint) : CountState :=
  let (categoryCount, categoryByDay) := st in
  let cat := c_category c in
  let categoryCount :=
    objSet ComplaintCategory_eqb categoryCount cat
      (orElse (objGet ComplaintCategory_eqb categoryCount cat) 0 + 1) in
  let day := weekdayLong LocalTZA (c_createdAt c) in
  let categoryByDay :=
    match objGet ComplaintCategory_eqb categoryByDay cat with
    | None => objSet ComplaintCategory_eqb categoryByDay cat []
    | Some _ => categoryByDay
    end in
  let dayMap := orElse (objGet ComplaintCategory_eqb categoryByDay cat) [] in
  let categoryByDay :=
    objSet ComplaintCategory_eqb categoryByDay cat
      (objSet JsString.eqb dayMap day
         (orElse (objGet JsString.eqb dayMap day) 0 + 1)) in
  (categoryCount, categoryByDay).

Definition recommendationFor (category : ComplaintCategory) (frequency : Z)
  : jsstring :=
  if 30 <? frequency then
    str "High volume of " ++ categoryName category
      ++ str " complaints. Consider preventive maintenance schedule."
  else if 15 <? frequency then
    str "Moderate " ++ categoryName category
      ++ str " issues. Review infrastructure condition."
  else categoryName category ++ str " complaints are within normal range.".

Definition trendFor (frequency : Z) : Trend :=
  if 20 <? frequency then increasing
  else if 10 <? frequency then stable
  else decreasing.

(** The body of the loop over [Object.entries(categoryCount)]. *)
Definition insightFor
  (categoryByDay : list (ComplaintCategory * list (jsstring * Z)))
  (total : Z) (entry : ComplaintCategory * Z) : PatternInsight :=
  let (category, count) := entry in
  let dayMap := orElse (objGet ComplaintCategory_eqb categoryByDay category) [] in
  let peakDays :=
    map fst (firstn 2 (sort (fun a b => snd b - snd a) dayMap)) in
  let frequency := Math_round (ofZ count / ofZ total * 100)%float in
  {| pi_category := category;
     pi_frequency := frequency;
     pi_trend := trendFor frequency;
     pi_peakDays := peakDays;
     pi_recommendation := recommendationFor category frequency |}.

Definition analyzePatterns (complaints : list Complaint)
  : list PatternInsight :=
  let (categoryCount, categoryByDay) :=
    fold_left countStep complaints ([], []) in
  let len := Z.of_nat (List.length complaints) in
  let total := if len =? 0 then 1 else len in
  let insights := map (insightFor categoryByDay total) categoryCount in
  sort (fun a b => pi_frequency b - pi_frequency a) insights.

End PatternAnalysis.

(** ** Sentiment analysis *)

Definition NEGATIVE_WORDS : list jsstring := map str
  ["terrible"; "horrible"; "awful"; "disgusting"; "unacceptable"; "worst";
   "pathetic"; "useless"; "incompetent"; "negligent"; "frustrated";
   "angry"]%string.

Definition POSITIVE_WORDS : list jsstring := map str
  ["good"; "great"; "excellent"; "satisfied"; "happy"; "resolved"; "fixed";
   "improved"; "better"; "appreciate"; "thank"]%string.

(** [s.split(/\s+/)]: the pieces between the maximal runs of white space;
    a run at either end leaves an empty piece there. *)
Fixpoint splitWhitespace (s : jsstring) : list jsstring :=
  match s with
  | [] => [[]]
  | c :: s' =>
      if isWhiteSpace c then
        match s' with
        | c' :: _ =>
            if isWhiteSpace c' then splitWhitespace s'
            else [] :: splitWhitespace s'
        | [] => [] :: splitWhitespace s'
        end
      else
        match splitWhitespace s' with
        | w :: ws => (c :: w) :: ws
        | [] => [[c]]
        end
  end.

(** [Boolean(w)] for a string: the empty string is the only falsy one. *)
Definition nonEmpty (w : jsstring) : bool :=
  match w with
  | [] => false
  | _ :: _ => true
  end.

Definition tokenize (text : jsstring) : list jsstring :=
  filter nonEmpty (splitWhitespace (preprocessText text)).

Inductive Sentiment := sentimentNegative | sentimentNeutral | sentimentPositive.

(** The body of the token loop. *)
Definition sentimentStep (score : Z) (token : jsstring) : Z :=
  let score := if arrIncludes NEGATIVE_WORDS token then score - 1 else score in
  if arrIncludes POSITIVE_WORDS token then score + 1 else score.

Definition analyzeSentiment (text : jsstring) : Sentiment :=
  let processed := preprocessText text in
  let tokens := tokenize processed in
  let score := fold_left sentimentStep tokens 0 in
  if score <? -1 then sentimentNegative
  else if 0 <? score then sentimentPositive
  else sentimentNeutral.

(** ** Other helpers of [src/lib/utils.ts] *)

(** [s.slice(0, end)] for an integer [end]: a negative [end] counts from
    the end of the string. *)
Definition sliceFromStart (s : jsstring) (end_ : Z) : jsstring :=
  let len := Z.of_nat (List.length s) in
  let final := if end_ <? 0 then Z.max (len + end_) 0 else Z.min end_ len in
  firstn (Z.to_nat final) s.

(** [length] is taken to be an integer. *)
Definition truncate (s : jsstring) (length : Z) : jsstring :=
  if length <? Z.of_nat (List.length s)
  then sliceFromStart s length ++ str "..."
  else s.

(** [new Date() > deadline], with [now] the value of [new Date()]; an
    Invalid Date compares false. *)
Definition isSLABreached (deadline : Date) (now : Z) : bool :=
  match getTime deadline with
  | None => false
  | Some d => d <? now
  end.

(** ** Complaint creation ([src/services/complaints.service.ts]) *)

(** A department as [createComplaint] receives it. *)
Record Department := {
  d_id : jsstring;
  d_name : jsstring;
  d_categories : list jsstring;
  d_slaHours : Q
}.

(** The same object seen at the type [classifyComplaint] asks for. *)
Definition descriptorOf (d : Department) : DepartmentDescriptor :=
  {| dept_id := d_id d; dept_categories := d_categories d |}.

(** The fields of the form that decide the routing; [None] is a falsy
    value (empty or missing). *)
Record ComplaintFormData := {
  fd_title : jsstring;
  fd_description : jsstring;
  fd_category : option ComplaintCategory;
  fd_priority : option Priority
}.

(** The fields of the stored document that [createComplaint] computes;
    [doc_slaDeadline] is [None] for [null]. *)
Record ComplaintDoc := {
  doc_category : ComplaintCategory;
  doc_departmentId : jsstring;
  doc_departmentName : jsstring;
  doc_priority : Priority;
  doc_aiConfidence : float;
  doc_aiSuggestedCategory : ComplaintCategory;
  doc_keywords : list jsstring;
  doc_slaDeadline : option Date
}.

(** [departments.find(d => d.id === suggested || d.categories.includes(category))
    ?? departments[0]] *)
Definition findDepartment (suggested : option jsstring)
  (category : ComplaintCategory) (departments : list Department)
  : option Department :=
  match
    find (fun d =>
            match suggested with
            | Some i => JsString.eqb (d_id d) i
            | None => false
            end
            || arrIncludes (d_categories d) (categoryName category))
         departments
  with
  | Some d => Some d
  | None => hd_error departments
  end.

(** The part of [createComplaint] that runs before the document is
    written: classification, the user's overrides, the department and the
    deadline.  [now] is the value of [new Date()]. *)
Definition createComplaint (LocalTZA : Z -> bool -> Z) (now : Z)
  (formData : ComplaintFormData) (departments : list Department)
  : option ComplaintDoc :=
  match
    classifyComplaint (fd_title formData) (fd_description formData)
      (map descriptorOf departments)
  with
  | None => None
  | Some aiResult =>
      let aiCategory := category aiResult in
      let aiPriority := priority aiResult in
      let category := orElse (fd_category formData) aiCategory in
      let priority := orElse (fd_priority formData) aiPriority in
      let dept :=
        findDepartment (suggestedDepartmentId aiResult) category departments in
      let slaDeadline :=
        option_map
          (fun d => calculateSLADeadline LocalTZA (Some now) (d_slaHours d))
          dept in
      Some {| doc_category := category;
              doc_departmentId := orElse (option_map d_id dept) [];
              doc_departmentName := orElse (option_map d_name dept) [];
              doc_priority := priority;
              doc_aiConfidence := confidence aiResult;
              doc_aiSuggestedCategory := aiCategory;
              doc_keywords := keywords aiResult;
              doc_slaDeadline := slaDeadline |}
  end.

(** ** Reading the specification *)

(** Position of a category in the declaration order of the dictionary. *)
Definition declIndex (c : ComplaintCategory) : nat :=
  match c with
  | water => 0 | electrical => 1 | internet => 2 | infrastructure => 3
  | sanitation => 4 | security => 5 | maintenance => 6 | other => 7
  end%nat.

(** A keyword is a multi-word phrase when it has an internal space. *)
Definition isPhrase (kw : jsstring) : bool := existsb (N.eqb 32) kw.

(** The score as the specification words it: 2 points per matched
    multi-word phrase, 1 per matched single-word keyword. *)
Definition specScore (processed : jsstring) (c : ComplaintCategory) : Z :=
  let matched := filter (includes processed) (keywordsOf c) in
  2 * Z.of_nat (List.length (filter isPhrase matched))
  + Z.of_nat (List.length (filter (fun kw => negb (isPhrase kw)) matched)).

(** The categories that are scored, in declaration order. *)
Definition activeCategories : list ComplaintCategory :=
  [water; electrical; internet; infrastructure; sanitation; security;
   maintenance].

(** The largest score a category can reach. *)
Definition maxScore (c : ComplaintCategory) : Z :=
  fold_right Z.add 0 (map keywordWeight (keywordsOf c)).

(** The confidence expression of [classifyCategory], on doubles. *)
Definition confidenceFormula (topScore totalScore : Z) : float :=
  (ofZ (Math_round
          (Math_min (ofZ topScore / Math_max (ofZ totalScore * lit_0_8) 1) 1
           * 100))
   / 100)%float.

(** The same ratio in exact arithmetic. *)
Definition exactConfidence (topScore totalScore : Z) : Q :=
  Qmin (inject_Z topScore / Qmax (inject_Z totalScore * (8 # 10)) 1) 1.

(** [k / 100] is the two-decimal rounding of [q]: no hundredth is nearer. *)
Definition isRoundedHundredths (k : Z) (q : Q) : Prop :=
  (Qabs (inject_Z k - 100 * q) <= 1 # 2)%Q.

Definition zrange (a b : Z) : list Z :=
  map (fun i => a + Z.of_nat i) (seq 0 (Z.to_nat (b + 1 - a))).

(** What is checked of the confidence for one pair of scores: it lies in
    [[0, 1]] and it is [k / 100] for an integer [k] nearest to a hundred
    times the exact ratio. *)
Definition confidenceChecked (topScore totalScore : Z) : bool :=
  let c := confidenceFormula topScore totalScore in
  let k :=
    Math_round
      (Math_min (ofZ topScore / Math_max (ofZ totalScore * lit_0_8) 1) 1 * 100)%float in
  PrimFloat.leb 0 c && PrimFloat.leb c 1
  && Qle_bool (Qabs (inject_Z k - 100 * exactConfidence topScore totalScore)) (1 # 2).

(** The sum of the scores of all categories. *)
Definition totalKeywordScore (text : jsstring) : Z :=
  fold_right Z.add 0
    (map (fun entry => scoreCategory text (fst entry)) CATEGORY_KEYWORDS).

(** Every keyword in scan order: the categories in declaration order,
    then the urgent list, then the high list. *)
Definition scanOrder : list jsstring :=
  List.concat (map snd CATEGORY_KEYWORDS) ++ URGENT_KEYWORDS ++ HIGH_KEYWORDS.

(** A list with every repetition after the first occurrence removed. *)
Fixpoint firstOccurrences (l : list jsstring) : list jsstring :=
  match l with
  | [] => []
  | x :: l' => x :: filter (fun y => negb (JsString.eqb y x)) (firstOccurrences l')
  end.

(** A unit of [[a-z0-9-]]: kept by the replacement and not white space. *)
Definition isWordUnit (c : N) : bool := isKept c && negb (isWhiteSpace c).

(** The number of complaints of a category. *)
Definition categoryCountOf (complaints : list Complaint)
  (c : ComplaintCategory) : Z :=
  Z.of_nat
    (List.length
       (filter (fun x => ComplaintCategory_eqb (c_category x) c) complaints)).

(** A time zone with a daylight-saving change: US Eastern time around
    2024-03-10, when local clocks jump from 02:00 to 03:00 at 07:00 UTC. *)
Definition usEastern2024 (t : Z) (isUTC : bool) : Z :=
  if isUTC then
    if t <? 1710054000000 then -5 * msPerHour else -4 * msPerHour
  else
    if t <? 1710039600000 then -5 * msPerHour else -4 * msPerHour.

(** What one iteration of the counting loop does to [categoryCount]. *)
Definition bumpCount (categoryCount : list (ComplaintCategory * Z))
  (c : Complaint) : list (ComplaintCategory * Z) :=
  objSet ComplaintCategory_eqb categoryCount (c_category c)
    (orElse (objGet ComplaintCategory_eqb categoryCount (c_category c)) 0 + 1).

(** A keyword whose first and last units are not white space, so that
    trimming cannot cut into an occurrence of it. *)
Definition edgesNonWhite (kw : jsstring) : bool :=
  match kw with
  | [] => false
  | c :: _ => negb (isWhiteSpace c)
  end
  && match rev kw with
     | [] => false
     | c :: _ => negb (isWhiteSpace c)
     end.

(** Every keyword of every dictionary. *)
Definition dictionaryKeywords : list jsstring :=
  scanOrder ++ LOW_KEYWORDS.

(** How many of the tokens belong to a word list. *)
Definition tokensIn (words tokens : list jsstring) : Z :=
  Z.of_nat (List.length (filter (arrIncludes words) tokens)).

(** Severity of a status: it only grows as time passes. *)
Definition statusRank (s : SLAStatus) : Z :=
  match s with
  | ok => 0
  | warning => 1
  | breached => 2
  end.

(** The number of complaints of a category created on a weekday. *)
Definition dayCountOf (LocalTZA : Z -> bool -> Z) (complaints : list Complaint)
  (c : ComplaintCategory) (day : jsstring) : Z :=
  Z.of_nat
    (List.length
       (filter (fun x => ComplaintCategory_eqb (c_category x) c
                         && JsString.eqb (weekdayLong LocalTZA (c_createdAt x)) day)
          complaints)).

(** What one iteration of the counting loop does to [categoryByDay]. *)
Definition bumpDay (LocalTZA : Z -> bool -> Z)
  (categoryByDay : list (ComplaintCategory * list (jsstring * Z)))
  (c : Complaint) : list (ComplaintCategory * list (jsstring * Z)) :=
  snd (countStep LocalTZA ([], categoryByDay) c).

(** What is checked of the confidence of a winner that holds at least a
    seventh of the total and at most 22 points: it is at least 0.18, and
    it is 1 exactly when the winner holds four fifths of the total. *)
Definition confidenceFloorChecked (topScore totalScore : Z) : bool :=
  implb ((totalScore <=? 7 * topScore) && (topScore <=? 22))
    (PrimFloat.leb (ofZ 18 / 100) (confidenceFormula topScore totalScore)
     && Bool.eqb (PrimFloat.eqb (confidenceFormula topScore totalScore) 1)
          (4 * totalScore <=? 5 * topScore)).

(** What a weekday bucket holds for a category: one key per weekday on
    which the category occurs, with the number of its complaints. *)
Definition dayMapOk (LocalTZA : Z -> bool -> Z) (cs : list Complaint)
  (k : ComplaintCategory) (dayMap : list (jsstring * Z)) : Prop :=
  NoDup (map fst dayMap)
  /\ forall d, objGet JsString.eqb dayMap d
               = if dayCountOf LocalTZA cs k d =? 0 then None
                 else Some (dayCountOf LocalTZA cs k d).

(** Whether a department lists a category. *)
Definition handles (d : Department) (c : ComplaintCategory) : bool :=
  arrIncludes (d_categories d) (categoryName c).

(** * Properties *)

(** ** Strings *)

Section StringFacts.

Lemma jseqb_eq (a b : jsstring) : JsString.eqb a b = true <-> a = b.
Proof.
  revert b; induction a as [|x a IH]; intros [|y b]; simpl;
    try (split; [discriminate | discriminate]); try tauto.
  rewrite andb_true_iff, N.eqb_eq, IH.
  split; [intros [-> ->]; reflexivity | intros H; inversion H; auto].
Qed.

Lemma jseqb_refl (a : jsstring) : JsString.eqb a a = true.
Proof. apply jseqb_eq; reflexivity. Qed.

Lemma jseqb_neq (a b : jsstring) : JsString.eqb a b = false <-> a <> b.
Proof.
  rewrite <- jseqb_eq. destruct (JsString.eqb a b); split; congruence.
Qed.

Lemma jseqb_sym (a b : jsstring) : JsString.eqb a b = JsString.eqb b a.
Proof.
  destruct (JsString.eqb a b) eqn:E.
  - apply jseqb_eq in E; subst; symmetry; apply jseqb_refl.
  - symmetry; apply jseqb_neq; apply jseqb_neq in E; congruence.
Qed.

Lemma arrIncludes_In (arr : list jsstring) (x : jsstring) :
  arrIncludes arr x = true <-> In x arr.
Proof.
  unfold arrIncludes. rewrite existsb_exists. split.
  - intros [y [Hy E]]. apply jseqb_eq in E; subst; assumption.
  - intros H; exists x; split; [assumption | apply jseqb_refl].
Qed.

Lemma startsWith_spec (s kw : jsstring) :
  startsWith s kw = true <-> exists post, s = kw ++ post.
Proof.
  revert s; induction kw as [|k kw IH]; intros s.
  - destruct s; simpl; split; eauto.
  - destruct s as [|c s]; simpl.
    + split; [discriminate | intros [post H]; discriminate].
    + rewrite andb_true_iff, N.eqb_eq, IH. split.
      * intros [-> [post ->]]; eauto.
      * intros [post H]; inversion H; eauto.
Qed.

Lemma includes_spec (s kw : jsstring) :
  includes s kw = true <-> exists pre post, s = pre ++ kw ++ post.
Proof.
  induction s as [|c s IH]; cbn [includes];
    rewrite orb_true_iff, startsWith_spec.
  - split.
    + intros [[post H] | H]; [exists [], post; assumption | discriminate].
    + intros [pre [post H]]. left.
      destruct pre; [exists post; assumption | discriminate].
  - rewrite IH. split.
    + intros [[post H] | [pre [post H]]].
      * exists [], post; assumption.
      * exists (c :: pre), post; simpl; congruence.
    + intros [[|c' pre] [post H]].
      * left; exists post; assumption.
      * right; inversion H; eauto.
Qed.

(** A text that contains a phrase contains each of its parts. *)
Lemma includes_part (s a kw b : jsstring) :
  includes s (a ++ kw ++ b) = true -> includes s kw = true.
Proof.
  rewrite !includes_spec. intros [pre [post ->]].
  exists (pre ++ a), (b ++ post). now rewrite <- !app_assoc.
Qed.

Lemma trimStart_keep (p kw q : jsstring) :
  kw <> [] -> forallb isWordUnit kw = true ->
  exists p', trimStart (p ++ kw ++ q) = p' ++ kw ++ q.
Proof.
  intros Hne Hw. destruct kw as [|k kw]; [congruence|].
  simpl in Hw. apply andb_true_iff in Hw as [Hk _].
  unfold isWordUnit in Hk. apply andb_true_iff in Hk as [_ Hk].
  apply negb_true_iff in Hk.
  induction p as [|c p IH]; simpl.
  - rewrite Hk. exists []; reflexivity.
  - destruct (isWhiteSpace c); [exact IH | exists (c :: p); reflexivity].
Qed.

Lemma forallb_rev {A} (f : A -> bool) (l : list A) :
  forallb f (rev l) = forallb f l.
Proof.
  induction l as [|x l IH]; simpl; [reflexivity|].
  rewrite forallb_app, IH; simpl. rewrite andb_true_r. apply andb_comm.
Qed.

Lemma trimEnd_keep (p kw q : jsstring) :
  kw <> [] -> forallb isWordUnit kw = true ->
  exists q', trimEnd (p ++ kw ++ q) = p ++ kw ++ q'.
Proof.
  intros Hne Hw. unfold trimEnd. rewrite !rev_app_distr, <- app_assoc.
  destruct (trimStart_keep (rev q) (rev kw) (rev p)) as [q' E].
  - intros H. apply (f_equal (@rev N)) in H.
    rewrite rev_involutive in H. exact (Hne H).
  - now rewrite forallb_rev.
  - rewrite E, !rev_app_distr, !rev_involutive, <- app_assoc.
    exists (rev q'); reflexivity.
Qed.

Lemma replaceNonWord_word (kw : jsstring) :
  forallb isWordUnit kw = true -> replaceNonWord kw = kw.
Proof.
  induction kw as [|k kw IH]; simpl; [reflexivity|].
  intros H. apply andb_true_iff in H as [Hk H].
  unfold isWordUnit in Hk. apply andb_true_iff in Hk as [Hk _].
  unfold blankUnit at 1. rewrite Hk. f_equal. exact (IH H).
Qed.

(** Preprocessing never destroys an occurrence of a word made of
    letters, digits and hyphens in the case-folded text. *)
Lemma preprocessText_keeps (text kw : jsstring) :
  kw <> [] -> forallb isWordUnit kw = true ->
  includes (toLowerCase text) kw = true ->
  includes (preprocessText text) kw = true.
Proof.
  intros Hne Hw H. apply includes_spec in H as [pre [post E]].
  unfold preprocessText, trim. rewrite E.
  unfold replaceNonWord. rewrite !map_app.
  fold (replaceNonWord kw). rewrite (replaceNonWord_word kw Hw).
  destruct (trimStart_keep (map blankUnit pre) kw (map blankUnit post) Hne Hw)
    as [p' ->].
  destruct (trimEnd_keep p' kw (map blankUnit post) Hne Hw) as [q' ->].
  apply includes_spec; eauto.
Qed.

End StringFacts.

(** ** Priority *)

Lemma existsb_includes (processed : jsstring) (kws : list jsstring) :
  existsb (includes processed) kws = true <->
  exists kw, In kw kws /\ includes processed kw = true.
Proof. apply existsb_exists. Qed.

Lemma existsb_includes_false (processed : jsstring) (kws : list jsstring) :
  existsb (includes processed) kws = false <->
  forall kw, In kw kws -> includes processed kw = false.
Proof.
  rewrite <- not_true_iff_false, existsb_includes. split.
  - intros H kw Hin. apply not_true_iff_false. intros E. apply H; eauto.
  - intros H [kw [Hin E]]. rewrite (H kw Hin) in E. discriminate.
Qed.

Lemma urgent_wins (text : jsstring) (c : ComplaintCategory) (kw : jsstring) :
  In kw URGENT_KEYWORDS -> includes (preprocessText text) kw = true ->
  determinePriority text c = urgent.
Proof.
  intros Hin H. unfold determinePriority.
  replace (existsb (includes (preprocessText text)) URGENT_KEYWORDS) with true;
    [reflexivity|].
  symmetry; apply existsb_includes; eauto.
Qed.

(** C1: [determinePriority] tries the urgent list, then the high list,
    then the low list, then the per-category default table (electrical,
    water and security are high, infrastructure, internet and sanitation
    normal, maintenance low, other normal); and a text that contains
    "urgent" once lower-cased is urgent whatever the category. *)
Theorem determinePriority_precedence (text : jsstring) :
  let processed := preprocessText text in
  let hit kws := exists kw, In kw kws /\ includes processed kw = true in
  (hit URGENT_KEYWORDS -> forall c, determinePriority text c = urgent)
  /\ (~ hit URGENT_KEYWORDS -> hit HIGH_KEYWORDS ->
      forall c, determinePriority text c = high)
  /\ (~ hit URGENT_KEYWORDS -> ~ hit HIGH_KEYWORDS -> hit LOW_KEYWORDS ->
      forall c, determinePriority text c = low)
  /\ (~ hit URGENT_KEYWORDS -> ~ hit HIGH_KEYWORDS -> ~ hit LOW_KEYWORDS ->
      determinePriority text electrical = high
      /\ determinePriority text water = high
      /\ determinePriority text security = high
      /\ determinePriority text infrastructure = normal
      /\ determinePriority text internet = normal
      /\ determinePriority text sanitation = normal
      /\ determinePriority text maintenance = low
      /\ determinePriority text other = normal)
  /\ (includes (toLowerCase text) (str "urgent") = true ->
      forall c, determinePriority text c = urgent).
Proof.
  intros processed hit. unfold hit, determinePriority. fold processed.
  rewrite <- !existsb_includes.
  destruct (existsb (includes processed) URGENT_KEYWORDS) eqn:EU;
  destruct (existsb (includes processed) HIGH_KEYWORDS) eqn:EH;
  destruct (existsb (includes processed) LOW_KEYWORDS) eqn:EL;
  repeat split; intros; try reflexivity; try congruence;
  exfalso;
  match goal with
  | H : includes (toLowerCase text) _ = true |- _ =>
      apply preprocessText_keeps in H;
        [ | discriminate | reflexivity ];
      fold processed in H;
      assert (E : existsb (includes processed) URGENT_KEYWORDS = true)
        by (apply existsb_includes; exists (str "urgent"); split;
            [left; reflexivity | exact H]);
      congruence
  end.
Qed.

Lemma determinePriority_precedence_witness :
  determinePriority (str "URGENT: the tap is broken, a minor thing") maintenance
  = urgent.
Proof.
  apply (determinePriority_precedence
           (str "URGENT: the tap is broken, a minor thing")).
  vm_compute. reflexivity.
Defined.

(** C10: a text whose preprocessed form contains "not urgent" is urgent,
    never low, for every category: the urgent list is tried first and
    "urgent" is a substring of "not urgent". *)
Theorem not_urgent_is_urgent (text : jsstring) (c : ComplaintCategory) :
  includes (preprocessText text) (str "not urgent") = true ->
  determinePriority text c = urgent /\ determinePriority text c <> low.
Proof.
  intros H.
  assert (E : determinePriority text c = urgent).
  { apply (urgent_wins text c (str "urgent")); [left; reflexivity|].
    apply (includes_part _ (str "not ") (str "urgent") []).
    rewrite app_nil_r. exact H. }
  rewrite E. split; [reflexivity | discriminate].
Qed.

Lemma not_urgent_is_urgent_witness :
  determinePriority (str "Not urgent, fix it when possible") maintenance = urgent
  /\ determinePriority (str "Not urgent, fix it when possible") maintenance <> low.
Proof.
  apply not_urgent_is_urgent. vm_compute. reflexivity.
Defined.

(** ** Sorting by descending key *)

Section SortDescending.

Context {A : Type}.
Variable key : A -> Z.

Lemma insertSorted_perm (x : A) (l : list A) :
  Permutation (insertSorted (fun a b => key b - key a) x l) (x :: l).
Proof.
  induction l as [|y l IH]; simpl; [reflexivity|].
  destruct (key y - key x <=? 0); [reflexivity|].
  rewrite IH. apply perm_swap.
Qed.

Lemma sort_perm (l : list A) :
  Permutation (sort (fun a b => key b - key a) l) l.
Proof.
  induction l as [|x l IH]; simpl; [reflexivity|].
  rewrite insertSorted_perm. now constructor.
Qed.

Lemma insertSorted_sorted (x : A) (l : list A) :
  StronglySorted (fun a b => key b <= key a) l ->
  StronglySorted (fun a b => key b <= key a)
    (insertSorted (fun a b => key b - key a) x l).
Proof.
  induction 1 as [|y l Hs IH Hy]; simpl.
  - repeat constructor.
  - destruct (key y - key x <=? 0) eqn:E.
    + apply Z.leb_le in E. constructor; [now constructor|].
      constructor; [lia|].
      eapply Forall_impl; [|exact Hy]. simpl; intros; lia.
    + apply Z.leb_gt in E. constructor; [exact IH|].
      eapply Permutation_Forall; [symmetry; apply insertSorted_perm|].
      constructor; [lia | exact Hy].
Qed.

Lemma sort_sorted (l : list A) :
  StronglySorted (fun a b => key b <= key a)
    (sort (fun a b => key b - key a) l).
Proof.
  induction l as [|x l IH]; simpl;
    [constructor | now apply insertSorted_sorted].
Qed.

(** The head of the sorted array is the first element of the input
    whose key is maximal. *)
Lemma sort_head_first_max (l : list A) :
  forall x rest,
    sort (fun a b => key b - key a) l = x :: rest ->
    exists l1 l2,
      l = l1 ++ x :: l2
      /\ Forall (fun y => key y < key x) l1
      /\ Forall (fun y => key y <= key x) l2.
Proof.
  induction l as [|a l IH]; intros x rest; simpl; [discriminate|].
  destruct (sort (fun a b => key b - key a) l) as [|y r] eqn:Es.
  - pose proof (sort_perm l) as P. rewrite Es in P.
    apply Permutation_nil in P; subst l.
    simpl; intros H; inversion H; subst.
    exists [], []; repeat split; constructor.
  - destruct (IH y r eq_refl) as [l1 [l2 [El [H1 H2]]]].
    simpl. destruct (key y - key a <=? 0) eqn:E; intros H;
      injection H as Hx Hr; subst x rest.
    + apply Z.leb_le in E. exists [], l.
      repeat split; [constructor|]. rewrite El.
      apply Forall_app; split.
      * eapply Forall_impl; [|exact H1]. simpl; intros; lia.
      * constructor; [lia|].
        eapply Forall_impl; [|exact H2]. simpl; intros; lia.
    + apply Z.leb_gt in E. exists (a :: l1), l2.
      repeat split; [now rewrite El | | exact H2].
      constructor; [lia | exact H1].
Qed.

End SortDescending.

(** ** Scores *)

Lemma split_nonempty (sep : N) (s : jsstring) :
  (1 <= List.length (split sep s))%nat.
Proof.
  induction s as [|c s IH]; simpl; [lia|].
  destruct (N.eqb c sep); simpl; [lia|].
  destruct (split sep s); simpl in *; lia.
Qed.

Lemma keywordWeight_phrase (kw : jsstring) :
  keywordWeight kw = if isPhrase kw then 2 else 1.
Proof.
  unfold keywordWeight, isPhrase.
  replace (1 <? List.length (split 32 kw))%nat with (existsb (N.eqb 32) kw);
    [reflexivity|].
  induction kw as [|c kw IH]; [reflexivity|].
  cbn [existsb split]. rewrite (N.eqb_sym 32 c).
  destruct (N.eqb c 32); simpl.
  - symmetry. apply Nat.ltb_lt. pose proof (split_nonempty 32 kw).
    simpl; lia.
  - rewrite IH. pose proof (split_nonempty 32 kw).
    destruct (split 32 kw); simpl in *; [lia | reflexivity].
Qed.

Lemma keywordWeight_pos (kw : jsstring) : 1 <= keywordWeight kw <= 2.
Proof. unfold keywordWeight. destruct (_ <? _)%nat; lia. Qed.

Section ScoreLoop.

Variable processed : jsstring.

Let step := scoreStep processed.

Lemma scoreLoop_spec (kws : list jsstring) (a : Z) :
  fold_left step kws a
  = a
    + 2 * Z.of_nat (List.length (filter isPhrase (filter (includes processed) kws)))
    + Z.of_nat (List.length (filter (fun kw => negb (isPhrase kw))
                               (filter (includes processed) kws))).
Proof.
  revert a; induction kws as [|kw kws IH]; intros a; [simpl; lia|].
  cbn [fold_left filter]. rewrite IH. unfold step, scoreStep.
  destruct (includes processed kw); [|lia].
  rewrite keywordWeight_phrase. cbn [filter].
  destruct (isPhrase kw); cbn [negb List.length]; lia.
Qed.

Lemma scoreLoop_bounds (kws : list jsstring) (a : Z) :
  a <= fold_left step kws a
  /\ fold_left step kws a <= a + fold_right Z.add 0 (map keywordWeight kws).
Proof.
  revert a; induction kws as [|kw kws IH]; intros a; [simpl; lia|].
  cbn [fold_left map fold_right].
  pose proof (keywordWeight_pos kw).
  assert (Hs : a <= step a kw <= a + keywordWeight kw)
    by (unfold step, scoreStep; destruct (includes processed kw); lia).
  destruct (IH (step a kw)); lia.
Qed.

Lemma scoreLoop_no_match (kws : list jsstring) (a : Z) :
  (forall kw, In kw kws -> includes processed kw = false) ->
  fold_left step kws a = a.
Proof.
  revert a; induction kws as [|kw kws IH]; intros a H; [reflexivity|].
  cbn [fold_left]. replace (step a kw) with a.
  - apply IH. intros; apply H; now right.
  - unfold step, scoreStep. now rewrite (H kw (or_introl eq_refl)).
Qed.

End ScoreLoop.

Lemma scoreCategory_spec (text : jsstring) (c : ComplaintCategory) :
  scoreCategory text c = specScore (preprocessText text) c.
Proof. unfold scoreCategory, specScore. rewrite scoreLoop_spec. lia. Qed.

Lemma scoreCategory_bounds (text : jsstring) (c : ComplaintCategory) :
  0 <= scoreCategory text c <= maxScore c.
Proof.
  unfold scoreCategory, maxScore.
  pose proof (scoreLoop_bounds (preprocessText text) (keywordsOf c) 0). lia.
Qed.

Lemma maxScore_le_22 (c : ComplaintCategory) : maxScore c <= 22.
Proof. destruct c; vm_compute; discriminate. Qed.

Lemma scoreAll_eq (text : jsstring) :
  scoreAll text
  = (map (fun c => (c, scoreCategory text c)) activeCategories,
     totalKeywordScore text).
Proof.
  assert (Ho : scoreCategory text other = 0) by reflexivity.
  unfold scoreAll, totalKeywordScore, activeCategories.
  change (map fst CATEGORY_KEYWORDS)
    with (activeCategories ++ [other]).
  change (map (fun entry => scoreCategory text (fst entry)) CATEGORY_KEYWORDS)
    with (map (scoreCategory text) (activeCategories ++ [other])).
  revert Ho. generalize (scoreCategory text). intros s Ho.
  cbn. rewrite Ho. f_equal. lia.
Qed.

Lemma totalKeywordScore_bounds (text : jsstring) :
  0 <= totalKeywordScore text <= 136.
Proof.
  unfold totalKeywordScore.
  change (map (fun entry => scoreCategory text (fst entry)) CATEGORY_KEYWORDS)
    with (map (scoreCategory text) (activeCategories ++ [other])).
  cbn [map app activeCategories fold_right].
  pose proof (scoreCategory_bounds text water).
  pose proof (scoreCategory_bounds text electrical).
  pose proof (scoreCategory_bounds text internet).
  pose proof (scoreCategory_bounds text infrastructure).
  pose proof (scoreCategory_bounds text sanitation).
  pose proof (scoreCategory_bounds text security).
  pose proof (scoreCategory_bounds text maintenance).
  pose proof (scoreCategory_bounds text other).
  change (maxScore water) with 22 in *.
  change (maxScore electrical) with 21 in *.
  change (maxScore internet) with 18 in *.
  change (maxScore infrastructure) with 19 in *.
  change (maxScore sanitation) with 19 in *.
  change (maxScore security) with 18 in *.
  change (maxScore maintenance) with 19 in *.
  change (maxScore other) with 0 in *.
  lia.
Qed.

Lemma score_le_total (text : jsstring) (c : ComplaintCategory) :
  scoreCategory text c <= totalKeywordScore text.
Proof.
  unfold totalKeywordScore.
  change (map (fun entry => scoreCategory text (fst entry)) CATEGORY_KEYWORDS)
    with (map (scoreCategory text) (activeCategories ++ [other])).
  cbn [map app activeCategories fold_right].
  pose proof (scoreCategory_bounds text water).
  pose proof (scoreCategory_bounds text electrical).
  pose proof (scoreCategory_bounds text internet).
  pose proof (scoreCategory_bounds text infrastructure).
  pose proof (scoreCategory_bounds text sanitation).
  pose proof (scoreCategory_bounds text security).
  pose proof (scoreCategory_bounds text maintenance).
  pose proof (scoreCategory_bounds text other).
  destruct c; lia.
Qed.

(** ** Category classification *)

Lemma zrange_In (a b x : Z) : a <= x <= b -> In x (zrange a b).
Proof.
  intros H. unfold zrange. apply in_map_iff.
  exists (Z.to_nat (x - a)). split; [lia|]. apply in_seq. lia.
Qed.

Lemma confidence_table :
  forallb (fun total =>
             forallb (fun top => confidenceChecked top total) (zrange 0 total))
          (zrange 1 136) = true.
Proof. vm_compute. reflexivity. Qed.

Lemma confidenceChecked_ok (top total : Z) :
  0 <= top <= total -> 1 <= total <= 136 -> confidenceChecked top total = true.
Proof.
  intros Ht Hn. pose proof confidence_table as T.
  rewrite forallb_forall in T. specialize (T total (zrange_In _ _ _ Hn)).
  rewrite forallb_forall in T. exact (T top (zrange_In _ _ _ Ht)).
Qed.

Lemma classifyCategory_zero (text : jsstring) :
  totalKeywordScore text = 0 ->
  classifyCategory text
  = Some {| cr_category := other; cr_confidence := lit_0_3 |}.
Proof.
  intros E. unfold classifyCategory. rewrite scoreAll_eq, E. reflexivity.
Qed.

Lemma activeCategories_cases (c : ComplaintCategory) :
  In c activeCategories \/ c = other.
Proof. destruct c; simpl; auto 10. Qed.

Lemma activeCategories_NoDup : NoDup activeCategories.
Proof. repeat constructor; simpl; intuition discriminate. Qed.

(** With a nonzero total the winner is the first category, in
    declaration order, whose score is maximal. *)
Lemma classifyCategory_nonzero (text : jsstring) :
  totalKeywordScore text <> 0 ->
  exists top,
    In top activeCategories
    /\ (forall c, scoreCategory text c <= scoreCategory text top)
    /\ (forall c, (declIndex c < declIndex top)%nat ->
                  scoreCategory text c < scoreCategory text top)
    /\ classifyCategory text
       = Some {| cr_category := top;
                 cr_confidence :=
                   confidenceFormula (scoreCategory text top)
                     (totalKeywordScore text) |}.
Proof.
  intros Hne. unfold classifyCategory. rewrite scoreAll_eq.
  destruct (totalKeywordScore text =? 0) eqn:E;
    [apply Z.eqb_eq in E; contradiction|].
  set (l := map (fun c => (c, scoreCategory text c)) activeCategories).
  assert (Hnth : forall c, In c activeCategories ->
                   nth_error l (declIndex c) = Some (c, scoreCategory text c)).
  { intros c Hc. destruct c; try reflexivity.
    simpl in Hc; intuition discriminate. }
  assert (Hnd : NoDup l).
  { apply (NoDup_map_inv fst). unfold l. rewrite map_map. simpl.
    exact activeCategories_NoDup. }
  destruct (sort (fun a b => snd b - snd a) l) as [|[topC topS] rest] eqn:Es.
  - pose proof (sort_perm snd l) as P. rewrite Es in P.
    apply Permutation_nil in P. discriminate.
  - destruct (sort_head_first_max snd l _ _ Es) as [l1 [l2 [El [H1 H2]]]].
    assert (Hin : In (topC, topS) l)
      by (rewrite El; apply in_or_app; right; left; reflexivity).
    unfold l in Hin. apply in_map_iff in Hin as [c0 [Ec Hc0]].
    injection Ec as -> <-.
    rewrite Forall_forall in H1, H2. simpl in H1, H2.
    exists topC. split; [exact Hc0|]. split; [|split; [|reflexivity]].
    + intros c. destruct (activeCategories_cases c) as [Hc | ->].
      * assert (Hcl : In (c, scoreCategory text c) l)
          by (unfold l; apply in_map_iff; eauto).
        rewrite El in Hcl. apply in_app_or in Hcl as [Hcl | [Hcl | Hcl]].
        -- apply H1 in Hcl. simpl in Hcl. lia.
        -- injection Hcl as -> _. lia.
        -- apply H2 in Hcl. exact Hcl.
      * pose proof (scoreCategory_bounds text topC).
        change (scoreCategory text other) with 0. lia.
    + intros c Hlt.
      assert (Htop : nth_error l (List.length l1)
                     = Some (topC, scoreCategory text topC))
        by (rewrite El, nth_error_app2, Nat.sub_diag by lia; reflexivity).
      pose proof (Hnth topC Hc0) as Htop'.
      assert (Hi : declIndex topC = List.length l1).
      { apply (proj1 (NoDup_nth_error l) Hnd).
        - apply nth_error_Some. rewrite Htop'. discriminate.
        - congruence. }
      assert (Hc : In c activeCategories).
      { destruct (activeCategories_cases c) as [Hc | ->]; [exact Hc|].
        assert (declIndex topC < 7)%nat
          by (apply (nth_error_Some l); rewrite Htop'; discriminate).
        simpl in Hlt. lia. }
      pose proof (Hnth c Hc) as Hcn.
      rewrite El, nth_error_app1 in Hcn by lia.
      apply nth_error_In in Hcn. apply H1 in Hcn. exact Hcn.
Qed.

Lemma classifyCategory_total (text : jsstring) :
  exists r, classifyCategory text = Some r.
Proof.
  destruct (Z.eq_dec (totalKeywordScore text) 0) as [E | E].
  - rewrite (classifyCategory_zero text E). eauto.
  - destruct (classifyCategory_nonzero text E) as [top [_ [_ [_ ->]]]]. eauto.
Qed.

(** The declaration order of the dictionary is the one [declIndex] names. *)
Lemma declIndex_order (c : ComplaintCategory) :
  nth_error (map fst CATEGORY_KEYWORDS) (declIndex c) = Some c.
Proof. destruct c; reflexivity. Qed.

(** C2: with a nonzero total score [classifyCategory] returns a category
    of highest score, and among the categories that tie for it the first
    one in the declaration order water, electrical, internet,
    infrastructure, sanitation, security, maintenance. *)
Theorem classifyCategory_first_max (text : jsstring) :
  totalKeywordScore text <> 0 ->
  exists r,
    classifyCategory text = Some r
    /\ In (cr_category r) activeCategories
    /\ (forall c, scoreCategory text c <= scoreCategory text (cr_category r))
    /\ (forall c, (declIndex c < declIndex (cr_category r))%nat ->
                  scoreCategory text c < scoreCategory text (cr_category r)).
Proof.
  intros Hne.
  destruct (classifyCategory_nonzero text Hne) as [top [Ha [Hmax [Hfirst E]]]].
  eexists. split; [exact E|]. simpl. auto.
Qed.

Lemma classifyCategory_first_max_witness :
  exists r,
    classifyCategory (str "water pipe leak road wall gate") = Some r
    /\ In (cr_category r) activeCategories
    /\ (forall c, scoreCategory (str "water pipe leak road wall gate") c
                  <= scoreCategory (str "water pipe leak road wall gate")
                       (cr_category r))
    /\ (forall c, (declIndex c < declIndex (cr_category r))%nat ->
                  scoreCategory (str "water pipe leak road wall gate") c
                  < scoreCategory (str "water pipe leak road wall gate")
                      (cr_category r)).
Proof.
  apply classifyCategory_first_max. vm_compute. discriminate.
Defined.

(** On a tie between water and infrastructure, water wins. *)
Example classifyCategory_tie :
  scoreAll (str "water pipe leak road wall gate")
  = ([(water, 3); (electrical, 0); (internet, 0); (infrastructure, 3);
      (sanitation, 0); (security, 0); (maintenance, 0)], 6)
  /\ option_map cr_category
       (classifyCategory (str "water pipe leak road wall gate"))
     = Some water.
Proof. split; vm_compute; reflexivity. Qed.

Lemma confidenceFormula_checked (text : jsstring) (top : ComplaintCategory) :
  totalKeywordScore text <> 0 ->
  confidenceChecked (scoreCategory text top) (totalKeywordScore text) = true.
Proof.
  intros Hne. apply confidenceChecked_ok.
  - pose proof (scoreCategory_bounds text top).
    pose proof (score_le_total text top). lia.
  - pose proof (totalKeywordScore_bounds text). lia.
Qed.

Lemma classifyCategory_confidence_range (text : jsstring) :
  exists r,
    classifyCategory text = Some r
    /\ PrimFloat.leb 0 (cr_confidence r) = true
    /\ PrimFloat.leb (cr_confidence r) 1 = true.
Proof.
  destruct (Z.eq_dec (totalKeywordScore text) 0) as [E | E].
  - rewrite (classifyCategory_zero text E). eexists; split; [reflexivity|].
    split; vm_compute; reflexivity.
  - destruct (classifyCategory_nonzero text E) as [top [_ [_ [_ ->]]]].
    eexists; split; [reflexivity|]. cbn [cr_confidence].
    pose proof (confidenceFormula_checked text top E) as C.
    unfold confidenceChecked in C.
    apply andb_true_iff in C as [C _]. apply andb_true_iff in C. exact C.
Qed.

(** With a nonzero total the confidence is the source's expression on
    doubles, a number of hundredths nearest to the exact ratio. *)
Lemma classifyCategory_confidence (text : jsstring) :
  totalKeywordScore text <> 0 ->
  exists r,
    classifyCategory text = Some r
    /\ let topScore := scoreCategory text (cr_category r) in
       let total := totalKeywordScore text in
       cr_confidence r
       = (ofZ (Math_round
                 (Math_min (ofZ topScore / Math_max (ofZ total * lit_0_8) 1) 1
                  * 100))
          / 100)%float
       /\ exists k,
            cr_confidence r = (ofZ k / 100)%float
            /\ isRoundedHundredths k (exactConfidence topScore total).
Proof.
  intros Hne.
  destruct (classifyCategory_nonzero text Hne) as [top [_ [_ [_ E]]]].
  eexists; split; [exact E|]. cbn [cr_category cr_confidence].
  split; [reflexivity|].
  eexists; split; [reflexivity|].
  pose proof (confidenceFormula_checked text top Hne) as C.
  unfold confidenceChecked in C. apply andb_true_iff in C as [_ C].
  apply Qle_bool_iff in C. exact C.
Qed.

(** C3: a category scores 2 points per matched multi-word phrase and 1 per
    matched single-word keyword; with a nonzero total the confidence is
    [min(topScore / max(total * 0.8, 1), 1)] rounded to two decimals, both
    as the source evaluates it on doubles and against the exact ratio
    (the result is [k / 100] with [k] an integer nearest to a hundred
    times the ratio); the confidence of [classifyCategory] is always
    within [[0, 1]]; and [classifyComplaint] returns the category and the
    confidence that [classifyCategory] gives for the title, a space and
    the description, so its confidence is within [[0, 1]] too and, with a
    nonzero total, the same rounded ratio. *)
Theorem confidence_formula_and_range (text : jsstring) :
  (forall c, scoreCategory text c = specScore (preprocessText text) c)
  /\ (totalKeywordScore text <> 0 ->
      exists r,
        classifyCategory text = Some r
        /\ let topScore := scoreCategory text (cr_category r) in
           let total := totalKeywordScore text in
           cr_confidence r
           = (ofZ (Math_round
                     (Math_min (ofZ topScore / Math_max (ofZ total * lit_0_8) 1) 1
                      * 100))
              / 100)%float
           /\ exists k,
                cr_confidence r = (ofZ k / 100)%float
                /\ isRoundedHundredths k (exactConfidence topScore total))
  /\ (exists r,
        classifyCategory text = Some r
        /\ PrimFloat.leb 0 (cr_confidence r) = true
        /\ PrimFloat.leb (cr_confidence r) 1 = true)
  /\ (forall title description departments,
        let fullText := title ++ [32%N] ++ description in
        exists r,
          classifyComplaint title description departments = Some r
          /\ PrimFloat.leb 0 (confidence r) = true
          /\ PrimFloat.leb (confidence r) 1 = true
          /\ (exists cr,
                classifyCategory fullText = Some cr
                /\ category r = cr_category cr
                /\ confidence r = cr_confidence cr)
          /\ (totalKeywordScore fullText <> 0 ->
              let topScore := scoreCategory fullText (category r) in
              let total := totalKeywordScore fullText in
              confidence r
              = (ofZ (Math_round
                        (Math_min
                           (ofZ topScore / Math_max (ofZ total * lit_0_8) 1) 1
                         * 100))
                 / 100)%float
              /\ exists k,
                   confidence r = (ofZ k / 100)%float
                   /\ isRoundedHundredths k (exactConfidence topScore total))).
Proof.
  split; [intros c; apply scoreCategory_spec|].
  split; [apply classifyCategory_confidence|].
  split; [apply classifyCategory_confidence_range|].
  intros title description departments fullText. unfold classifyComplaint.
  fold fullText.
  destruct (classifyCategory_confidence_range fullText) as [cr [E [R0 R1]]].
  rewrite E. eexists; split; [reflexivity|]. cbn [confidence category].
  split; [exact R0|]. split; [exact R1|]. split.
  - exists cr. split; [reflexivity|]. split; reflexivity.
  - intros Hne.
    destruct (classifyCategory_confidence fullText Hne) as [cr' [E' H]].
    rewrite E in E'. injection E' as <-. exact H.
Qed.

Lemma confidence_formula_and_range_witness :
  totalKeywordScore (str "water pipe leak road wall gate") = 6
  /\ (exists r,
        classifyCategory (str "water pipe leak road wall gate") = Some r
        /\ cr_confidence r = (ofZ 62 / 100)%float)
  /\ (exists r,
        classifyComplaint (str "water pipe leak") (str "road wall gate") []
        = Some r
        /\ confidence r = (ofZ 62 / 100)%float).
Proof.
  split; [vm_compute; reflexivity|]. split.
  - destruct (proj1 (proj2 (confidence_formula_and_range
                              (str "water pipe leak road wall gate"))))
      as [r [E [F _]]]; [vm_compute; discriminate|].
    exists r. split; [exact E|]. rewrite F.
    vm_compute in E. injection E as <-. vm_compute. reflexivity.
  - destruct (proj2 (proj2 (proj2 (confidence_formula_and_range [])))
                (str "water pipe leak") (str "road wall gate") [])
      as [r [E [_ [_ [_ F]]]]].
    destruct F as [F _]; [vm_compute; discriminate|].
    exists r. split; [exact E|]. rewrite F.
    vm_compute in E. injection E as <-. vm_compute. reflexivity.
Defined.

(** C4: a text in which no dictionary keyword occurs has total score 0,
    and a text of total score 0 is classified [other] with confidence
    0.3; the empty complaint gives [other], 0.3, [normal], no keyword and
    no suggested department. *)
Theorem no_keyword_is_other (text : jsstring) :
  ((forall c kw, In kw (keywordsOf c) ->
                 includes (preprocessText text) kw = false) ->
   totalKeywordScore text = 0)
  /\ (totalKeywordScore text = 0 ->
      classifyCategory text
      = Some {| cr_category := other; cr_confidence := lit_0_3 |})
  /\ classifyComplaint [] [] []
     = Some {| category := other;
               confidence := lit_0_3;
               priority := normal;
               keywords := [];
               suggestedDepartmentId := None |}.
Proof.
  split; [|split; [apply classifyCategory_zero | vm_compute; reflexivity]].
  intros H.
  assert (Hz : forall c, scoreCategory text c = 0).
  { intros c. unfold scoreCategory. apply scoreLoop_no_match. apply H. }
  unfold totalKeywordScore.
  change (map (fun entry => scoreCategory text (fst entry)) CATEGORY_KEYWORDS)
    with (map (scoreCategory text) (activeCategories ++ [other])).
  cbn [map app activeCategories fold_right]. rewrite !Hz. reflexivity.
Qed.

Lemma no_keyword_is_other_witness :
  classifyCategory (str "Hello, nothing to see here")
  = Some {| cr_category := other; cr_confidence := lit_0_3 |}.
Proof.
  apply (proj1 (proj2 (no_keyword_is_other (str "Hello, nothing to see here")))).
  apply (proj1 (no_keyword_is_other (str "Hello, nothing to see here"))).
  intros c kw. revert kw. apply Forall_forall.
  destruct c; vm_compute; repeat (constructor; [reflexivity|]); constructor.
Defined.

(** ** SLA status *)

Lemma Qltb_lt (a b : Q) : Qltb a b = true <-> (a < b)%Q.
Proof.
  unfold Qltb. rewrite negb_true_iff, <- not_true_iff_false, Qle_bool_iff.
  split; [apply Qnot_le_lt | apply Qlt_not_le].
Qed.

Lemma hoursLeft_lt (diff n : Z) :
  Qltb (inject_Z diff / inject_Z (1000 * 60 * 60)) (inject_Z n) = true
  <-> diff < n * msPerHour.
Proof.
  rewrite Qltb_lt. unfold Qlt, Qdiv, Qmult, Qinv, inject_Z, msPerHour.
  simpl. lia.
Qed.

(** The status in terms of the remaining milliseconds. *)
Lemma getSLAStatus_eq (deadline now : Z) :
  getSLAStatus (Some deadline) now
  = if deadline - now <? 0 then breached
    else if deadline - now <? 4 * msPerHour then warning
    else ok.
Proof.
  unfold getSLAStatus, getTime. cbv zeta.
  pose proof (hoursLeft_lt (deadline - now) 0) as H0.
  pose proof (hoursLeft_lt (deadline - now) 4) as H4.
  change (inject_Z 0) with 0%Q in H0. change (inject_Z 4) with 4%Q in H4.
  destruct (Qltb (inject_Z (deadline - now) / inject_Z (1000 * 60 * 60)) 0).
  - replace (deadline - now <? 0) with true; [reflexivity|].
    symmetry; apply Z.ltb_lt. apply H0; reflexivity.
  - replace (deadline - now <? 0) with false.
    2:{ symmetry; apply Z.ltb_ge.
        destruct (Z_lt_le_dec (deadline - now) (0 * msPerHour)) as [L|L];
          [apply H0 in L; discriminate | exact L]. }
    destruct (Qltb (inject_Z (deadline - now) / inject_Z (1000 * 60 * 60)) 4).
    + replace (deadline - now <? 4 * msPerHour) with true; [reflexivity|].
      symmetry; apply Z.ltb_lt. apply H4; reflexivity.
    + replace (deadline - now <? 4 * msPerHour) with false; [reflexivity|].
      symmetry; apply Z.ltb_ge.
      destruct (Z_lt_le_dec (deadline - now) (4 * msPerHour)) as [L|L];
        [apply H4 in L; discriminate | exact L].
Qed.

(** C5: the status is [breached] exactly when [now] is past the deadline,
    otherwise [warning] exactly when less than 4 hours remain, otherwise
    [ok]; at the deadline itself it is [warning], one second later
    [breached], and with exactly 4 hours left [ok]. *)
Theorem getSLAStatus_thresholds (deadline now : Z) :
  (getSLAStatus (Some deadline) now = breached <-> deadline < now)
  /\ (getSLAStatus (Some deadline) now = warning
      <-> now <= deadline /\ deadline - now < 4 * msPerHour)
  /\ (getSLAStatus (Some deadline) now = ok
      <-> 4 * msPerHour <= deadline - now)
  /\ getSLAStatus (Some deadline) deadline = warning
  /\ getSLAStatus (Some deadline) (deadline + 1 * msPerSecond) = breached
  /\ getSLAStatus (Some deadline) (deadline - 4 * msPerHour) = ok.
Proof.
  rewrite !getSLAStatus_eq. unfold msPerHour, msPerSecond.
  repeat match goal with
    | |- context [?a <? ?b] => destruct (Z.ltb_spec a b)
    end;
    repeat split; intros; try reflexivity; try discriminate; try lia.
Qed.

Lemma getSLAStatus_thresholds_witness :
  getSLAStatus (Some 1700000000000) 1700000000000 = warning
  /\ getSLAStatus (Some 1700000000000) 1700000001000 = breached
  /\ getSLAStatus (Some 1700000000000) 1699985600000 = ok.
Proof.
  pose proof (getSLAStatus_thresholds 1700000000000 0)
    as [_ [_ [_ [H1 [H2 H3]]]]].
  split; [exact H1 | split; [exact H2 | exact H3]].
Defined.

(** ** SLA deadline *)

(** *** Rounding to a Number *)

Lemma Qfrac_le (a b c d : Z) :
  0 < b -> 0 < d -> a * d <= c * b ->
  (inject_Z a / inject_Z b <= inject_Z c / inject_Z d)%Q.
Proof.
  intros Hb Hd H. destruct b as [|pb|pb]; try lia. destruct d as [|pd|pd]; try lia.
  unfold Qle, Qdiv, Qmult, Qinv, inject_Z. simpl. nia.
Qed.

Lemma Qfrac_lt (a b c d : Z) :
  0 < b -> 0 < d -> a * d < c * b ->
  (inject_Z a / inject_Z b < inject_Z c / inject_Z d)%Q.
Proof.
  intros Hb Hd H. destruct b as [|pb|pb]; try lia. destruct d as [|pd|pd]; try lia.
  unfold Qlt, Qdiv, Qmult, Qinv, inject_Z. simpl. nia.
Qed.

Lemma pow2_frac (a b : Z) : 0 <= a -> 0 <= b ->
  (2 ^ (a - b) == inject_Z (2 ^ a) / inject_Z (2 ^ b))%Q.
Proof.
  intros Ha Hb. rewrite Qpower_minus by discriminate.
  rewrite !Zpower_Qpower by assumption. reflexivity.
Qed.

Lemma floorLog2_spec (a : Q) :
  (0 < a)%Q -> (2 ^ floorLog2 a <= a)%Q /\ (a < 2 ^ (floorLog2 a + 1))%Q.
Proof.
  intros Ha. destruct a as [n d]. unfold Qlt in Ha. simpl in Ha.
  assert (Hn : 0 < n) by lia.
  unfold floorLog2. cbn [Qnum Qden].
  pose proof (Z.log2_spec n Hn) as [Hn1 Hn2].
  pose proof (Z.log2_spec (Z.pos d) (Pos2Z.is_pos d)) as [Hd1 Hd2].
  pose proof (Z.log2_nonneg n) as Hln. pose proof (Z.log2_nonneg (Z.pos d)) as Hld.
  set (ln := Z.log2 n) in *. set (ld := Z.log2 (Z.pos d)) in *.
  assert (Hpn : 0 < 2 ^ ln) by (apply Z.pow_pos_nonneg; lia).
  assert (Hpd : 0 < 2 ^ ld) by (apply Z.pow_pos_nonneg; lia).
  rewrite !Z.pow_succ_r in * by lia.
  rewrite (Qmake_Qdiv n d).
  destruct (Z.leb_spec (2 ^ ln * Z.pos d) (n * 2 ^ ld)) as [T | T].
  - split.
    + rewrite pow2_frac by lia. apply Qfrac_le; lia.
    + replace (ln - ld + 1) with (ln + 1 - ld) by ring.
      rewrite pow2_frac by lia. apply Qfrac_lt; try lia.
      rewrite Z.pow_add_r by lia. change (2 ^ 1) with 2. nia.
  - split.
    + replace (ln - ld - 1) with (ln - (ld + 1)) by ring.
      rewrite pow2_frac by lia. apply Qfrac_le; try lia.
      rewrite Z.pow_add_r by lia. change (2 ^ 1) with 2. nia.
    + replace (ln - ld - 1 + 1) with (ln - ld) by ring.
      rewrite pow2_frac by lia. apply Qfrac_lt; lia.
Qed.

Lemma pow2_pos (e : Z) : (0 < 2 ^ e)%Q.
Proof. apply Qpower_0_lt. reflexivity. Qed.

Lemma pow2_add (a b : Z) : (2 ^ (a + b) == 2 ^ a * 2 ^ b)%Q.
Proof. apply Qpower_plus. discriminate. Qed.

Lemma pow2_cancel (e : Z) : (2 ^ (- e) * 2 ^ e == 1)%Q.
Proof. rewrite <- pow2_add. replace (- e + e) with 0 by ring. reflexivity. Qed.

Lemma pow2_Z (n : Z) : 0 <= n -> (2 ^ n == inject_Z (2 ^ n))%Q.
Proof. intros H. symmetry. apply (Zpower_Qpower 2 n H). Qed.

Lemma roundEven_Z (y : Q) (N : Z) : (y == inject_Z N)%Q -> roundEven y = N.
Proof.
  intros E. unfold roundEven. rewrite (Qfloor_comp _ _ E), Qfloor_Z.
  assert (H : (y - inject_Z N < 1 # 2)%Q).
  { rewrite E. unfold Qminus. rewrite Qplus_opp_r. reflexivity. }
  rewrite (proj1 (Qlt_alt _ _) H). reflexivity.
Qed.

Lemma roundEven_floor (y : Q) : Qfloor y <= roundEven y <= Qfloor y + 1.
Proof.
  unfold roundEven. destruct (_ ?= _)%Q; [destruct (Z.even _)| |]; lia.
Qed.

Lemma roundEven_ge (y : Q) (M : Z) : (inject_Z M <= y)%Q -> M <= roundEven y.
Proof.
  intros H. apply Qfloor_resp_le in H. rewrite Qfloor_Z in H.
  pose proof (roundEven_floor y). lia.
Qed.

Lemma roundEven_le (y : Q) (M : Z) : (y <= inject_Z M)%Q -> roundEven y <= M.
Proof.
  intros H. pose proof (Qfloor_resp_le _ _ H) as F. rewrite Qfloor_Z in F.
  destruct (Z.eq_dec (Qfloor y) M) as [E | NE].
  - rewrite (roundEven_Z y M); [lia|].
    apply Qle_antisym; [exact H|]. rewrite <- E. apply Qfloor_le.
  - pose proof (roundEven_floor y). lia.
Qed.

(** A positive Number is its own rounding: [z / 2^j] with [z] below
    [2^53] has at most 53 significant bits. *)
Lemma roundPositive_exact (a : Q) (z j : Z) :
  0 < z < 2 ^ 53 -> 0 <= j <= 1074 ->
  (a == inject_Z z * 2 ^ (- j))%Q -> (roundPositive a == a)%Q.
Proof.
  intros Hz Hj Ea. unfold roundPositive.
  assert (Ha : (0 < a)%Q).
  { rewrite Ea. apply Qmult_lt_0_compat; [|apply pow2_pos].
    change 0%Q with (inject_Z 0). rewrite <- Zlt_Qlt. lia. }
  destruct (floorLog2_spec a Ha) as [L1 _]. set (L := floorLog2 a) in *.
  assert (HL : L < 53 - j).
  { apply (Qpower_lt_compat_l_inv 2); [|reflexivity].
    apply (Qle_lt_trans _ a); [exact L1|]. rewrite Ea.
    replace (53 - j) with (53 + - j) by ring. rewrite pow2_add.
    apply Qmult_lt_compat_r; [apply pow2_pos|].
    rewrite pow2_Z by lia. rewrite <- Zlt_Qlt. lia. }
  set (e := Z.max (L - 52) (-1074)).
  assert (He : e <= - j) by lia.
  set (N := z * 2 ^ (- j - e)).
  assert (EN : (a * 2 ^ (- e) == inject_Z N)%Q).
  { rewrite Ea. unfold N. rewrite inject_Z_mult, <- pow2_Z by lia.
    rewrite <- Qmult_assoc, <- pow2_add.
    replace (- j + - e) with (- j - e) by ring. reflexivity. }
  rewrite (roundEven_Z _ _ EN).
  rewrite <- EN, <- Qmult_assoc, pow2_cancel, Qmult_1_r. reflexivity.
Qed.

Lemma roundPositive_nonneg (a : Q) : (0 <= a)%Q -> (0 <= roundPositive a)%Q.
Proof.
  intros Ha. unfold roundPositive. apply Qmult_le_0_compat.
  - change 0%Q with (inject_Z 0). rewrite <- Zle_Qle. apply roundEven_ge.
    apply Qmult_le_0_compat; [exact Ha | apply Qlt_le_weak, pow2_pos].
  - apply Qlt_le_weak, pow2_pos.
Qed.

(** Rounding does not cross a Number: here an integer up to [2^53]. *)
Lemma roundPositive_le (a : Q) (m : Z) :
  (0 < a)%Q -> m <= 2 ^ 53 -> (a <= inject_Z m)%Q ->
  (roundPositive a <= inject_Z m)%Q.
Proof.
  intros Ha Hm Hle. unfold roundPositive.
  destruct (floorLog2_spec a Ha) as [L1 _]. set (L := floorLog2 a) in *.
  assert (Hm53 : (inject_Z m <= 2 ^ 53)%Q).
  { rewrite pow2_Z by lia. rewrite <- Zle_Qle. exact Hm. }
  assert (HL : L <= 53).
  { apply (Qpower_le_compat_l_inv 2); [|reflexivity].
    apply (Qle_trans _ a); [exact L1|]. apply (Qle_trans _ (inject_Z m)); assumption. }
  set (e := Z.max (L - 52) (-1074)).
  assert (EM : exists M, (inject_Z m * 2 ^ (- e) == inject_Z M)%Q).
  { destruct (Z.le_gt_cases e 0) as [He | He].
    - exists (m * 2 ^ (- e)). rewrite inject_Z_mult, <- pow2_Z by lia. reflexivity.
    - assert (e = 1) by lia. assert (L = 53) by lia.
      assert (E53 : m = 2 ^ 53).
      { apply Z.le_antisymm; [exact Hm|]. rewrite Zle_Qle, <- pow2_Z by lia.
        apply (Qle_trans _ a); [|exact Hle]. replace 53 with L by lia. exact L1. }
      exists (2 ^ 52). rewrite E53. replace e with 1 by lia. reflexivity. }
  destruct EM as [M EM].
  assert (HN : roundEven (a * 2 ^ (- e)) <= M).
  { apply roundEven_le. rewrite <- EM.
    apply Qmult_le_compat_r; [exact Hle | apply Qlt_le_weak, pow2_pos]. }
  apply (Qle_trans _ (inject_Z M * 2 ^ e)).
  - apply Qmult_le_compat_r; [|apply Qlt_le_weak, pow2_pos].
    rewrite <- Zle_Qle. exact HN.
  - rewrite <- EM, <- Qmult_assoc, pow2_cancel, Qmult_1_r. apply Qle_refl.
Qed.

Lemma roundPositive_ge (a : Q) (m : Z) :
  0 < m <= 2 ^ 53 -> (inject_Z m <= a)%Q ->
  (inject_Z m <= roundPositive a)%Q.
Proof.
  intros Hm Hle. unfold roundPositive.
  assert (Ha : (0 < a)%Q).
  { apply (Qlt_le_trans _ (inject_Z m)); [|exact Hle].
    change 0%Q with (inject_Z 0). rewrite <- Zlt_Qlt. lia. }
  destruct (floorLog2_spec a Ha) as [L1 _]. set (L := floorLog2 a) in *.
  set (e := Z.max (L - 52) (-1074)).
  destruct (Z.le_gt_cases e 0) as [He | He].
  - assert (HN : m * 2 ^ (- e) <= roundEven (a * 2 ^ (- e))).
    { apply roundEven_ge. rewrite inject_Z_mult, <- pow2_Z by lia.
      apply Qmult_le_compat_r; [exact Hle | apply Qlt_le_weak, pow2_pos]. }
    apply (Qle_trans _ (inject_Z (m * 2 ^ (- e)) * 2 ^ e)).
    + rewrite inject_Z_mult, <- pow2_Z by lia.
      rewrite <- Qmult_assoc, pow2_cancel, Qmult_1_r. apply Qle_refl.
    + apply Qmult_le_compat_r; [|apply Qlt_le_weak, pow2_pos].
      rewrite <- Zle_Qle. exact HN.
  - assert (Ee : e = L - 52) by lia.
    assert (HN : 2 ^ 52 <= roundEven (a * 2 ^ (- e))).
    { apply roundEven_ge. rewrite <- pow2_Z by lia.
      apply (Qle_trans _ (2 ^ L * 2 ^ (- e))).
      - rewrite <- pow2_add. replace (L + - e) with 52 by lia. apply Qle_refl.
      - apply Qmult_le_compat_r; [exact L1 | apply Qlt_le_weak, pow2_pos]. }
    apply (Qle_trans _ (2 ^ 53)).
    + rewrite pow2_Z by lia. rewrite <- Zle_Qle. lia.
    + apply (Qle_trans _ (inject_Z (2 ^ 52) * 2 ^ e)).
      * rewrite <- pow2_Z, <- pow2_add by lia.
        apply Qpower_le_compat_l; [lia | discriminate].
      * apply Qmult_le_compat_r; [|apply Qlt_le_weak, pow2_pos].
        rewrite <- Zle_Qle. exact HN.
Qed.

Lemma Qnum_neg (x : Q) : Qnum x < 0 -> (x < 0)%Q.
Proof. intros H. unfold Qlt. simpl. lia. Qed.

Lemma Qnum_pos (x : Q) : 0 < Qnum x -> (0 < x)%Q.
Proof. intros H. unfold Qlt. simpl. lia. Qed.

Lemma Qnum_zero (x : Q) : Qnum x = 0 -> (x == 0)%Q.
Proof. intros H. unfold Qeq. rewrite H. reflexivity. Qed.

Lemma Qopp_pos (x : Q) : (x < 0)%Q -> (0 < - x)%Q.
Proof. intros H. apply Qopp_lt_compat in H. exact H. Qed.

Lemma roundNumber_exact (x : Q) (z j : Z) :
  Z.abs z < 2 ^ 53 -> 0 <= j <= 1074 ->
  (x == inject_Z z * 2 ^ (- j))%Q -> (roundNumber x == x)%Q.
Proof.
  intros Hz Hj Ex. unfold roundNumber.
  destruct (Z.compare_spec (Qnum x) 0) as [E | Hlt | Hgt].
  - symmetry. apply Qnum_zero, E.
  - apply Qnum_neg in Hlt.
    assert (z < 0).
    { destruct (Z.lt_ge_cases z 0) as [|Hz0]; [assumption|]. exfalso.
      apply (Qlt_not_le _ _ Hlt). rewrite Ex. apply Qmult_le_0_compat.
      - change 0%Q with (inject_Z 0). rewrite <- Zle_Qle. lia.
      - apply Qlt_le_weak, pow2_pos. }
    rewrite (roundPositive_exact (- x) (- z) j); [apply Qopp_involutive | lia | lia |].
    rewrite Ex, inject_Z_opp. ring.
  - apply Qnum_pos in Hgt.
    assert (0 < z).
    { destruct (Z.lt_ge_cases 0 z) as [|Hz0]; [assumption|]. exfalso.
      apply (Qlt_not_le _ _ Hgt). rewrite Ex.
      setoid_replace 0%Q with (0 * 2 ^ (- j))%Q by ring.
      apply Qmult_le_compat_r; [|apply Qlt_le_weak, pow2_pos].
      change 0%Q with (inject_Z 0). rewrite <- Zle_Qle. lia. }
    apply (roundPositive_exact x z j); [lia | lia | exact Ex].
Qed.

Lemma roundNumber_le (x : Q) (m : Z) :
  Z.abs m <= 2 ^ 53 -> (x <= inject_Z m)%Q -> (roundNumber x <= inject_Z m)%Q.
Proof.
  intros Hm Hle. unfold roundNumber.
  destruct (Z.compare_spec (Qnum x) 0) as [E | Hlt | Hgt].
  - rewrite <- (Qnum_zero x E). exact Hle.
  - apply Qnum_neg in Hlt. destruct (Z.le_gt_cases 0 m) as [Hm0 | Hm0].
    + apply (Qle_trans _ 0).
      * setoid_replace 0%Q with (- 0)%Q by ring. apply Qopp_le_compat.
        apply roundPositive_nonneg, Qlt_le_weak, Qopp_pos, Hlt.
      * change 0%Q with (inject_Z 0). rewrite <- Zle_Qle. exact Hm0.
    + setoid_replace (inject_Z m) with (- inject_Z (- m))%Q
        by (rewrite inject_Z_opp; ring).
      apply Qopp_le_compat, roundPositive_ge; [lia|].
      rewrite inject_Z_opp. apply Qopp_le_compat, Hle.
  - apply Qnum_pos in Hgt. apply roundPositive_le; [exact Hgt | lia | exact Hle].
Qed.

Lemma roundNumber_ge (x : Q) (m : Z) :
  Z.abs m <= 2 ^ 53 -> (inject_Z m <= x)%Q -> (inject_Z m <= roundNumber x)%Q.
Proof.
  intros Hm Hle. unfold roundNumber.
  destruct (Z.compare_spec (Qnum x) 0) as [E | Hlt | Hgt].
  - rewrite <- (Qnum_zero x E). exact Hle.
  - apply Qnum_neg in Hlt.
    setoid_replace (inject_Z m) with (- inject_Z (- m))%Q
      by (rewrite inject_Z_opp; ring).
    apply Qopp_le_compat, roundPositive_le; [apply Qopp_pos, Hlt | lia |].
    rewrite inject_Z_opp. apply Qopp_le_compat, Hle.
  - apply Qnum_pos in Hgt. destruct (Z.le_gt_cases m 0) as [Hm0 | Hm0].
    + apply (Qle_trans _ 0).
      * change 0%Q with (inject_Z 0). rewrite <- Zle_Qle. exact Hm0.
      * apply roundPositive_nonneg, Qlt_le_weak, Hgt.
    + apply roundPositive_ge; [lia | exact Hle].
Qed.

Lemma roundInteger_exact (z : Z) :
  Z.abs z < 9007199254740992 -> roundInteger z = z.
Proof.
  intros Hz. unfold roundInteger.
  rewrite (Qfloor_comp _ (inject_Z z)); [apply Qfloor_Z|].
  apply (roundNumber_exact _ z 0); [exact Hz | lia |].
  change (2 ^ (- 0))%Q with 1%Q. ring.
Qed.

Lemma roundInteger_le (z m : Z) :
  Z.abs m <= 9007199254740992 -> z <= m -> roundInteger z <= m.
Proof.
  intros Hm Hle. unfold roundInteger. rewrite <- (Qfloor_Z m).
  apply Qfloor_resp_le, roundNumber_le; [exact Hm|].
  rewrite <- Zle_Qle. exact Hle.
Qed.

Lemma roundInteger_ge (z m : Z) :
  Z.abs m <= 9007199254740992 -> m <= z -> m <= roundInteger z.
Proof.
  intros Hm Hle. unfold roundInteger. rewrite <- (Qfloor_Z m) at 1.
  apply Qfloor_resp_le, roundNumber_ge; [exact Hm|].
  rewrite <- Zle_Qle. exact Hle.
Qed.

Lemma ToIntegerOrInfinity_comp (x y : Q) :
  (x == y)%Q -> ToIntegerOrInfinity x = ToIntegerOrInfinity y.
Proof.
  destruct x as [n d], y as [n' d']. intros E.
  unfold ToIntegerOrInfinity. cbn [Qnum Qden].
  pose proof E as E'. unfold Qeq in E'. cbn [Qnum Qden] in E'.
  destruct (Z.le_gt_cases 0 n) as [Hn | Hn].
  - assert (0 <= n') by nia.
    rewrite !Z.quot_div_nonneg by lia.
    exact (Qfloor_comp _ _ E).
  - assert (n' < 0) by nia.
    replace n with (- - n) by ring. replace n' with (- - n') by ring.
    rewrite (Z.quot_opp_l (- n)), (Z.quot_opp_l (- n')) by discriminate.
    rewrite !Z.quot_div_nonneg by lia. f_equal.
    apply (Qfloor_comp (- n # d) (- n' # d')).
    unfold Qeq. cbn [Qnum Qden]. lia.
Qed.

Lemma ToIntegerOrInfinity_Z (x : Q) (z : Z) :
  (x == inject_Z z)%Q -> ToIntegerOrInfinity x = z.
Proof.
  intros E. rewrite (ToIntegerOrInfinity_comp _ _ E).
  unfold ToIntegerOrInfinity, inject_Z. cbn [Qnum Qden]. apply Z.quot_1_r.
Qed.

Lemma ToIntegerOrInfinity_le (x : Q) (m : Z) :
  (x <= inject_Z m)%Q -> ToIntegerOrInfinity x <= m.
Proof.
  destruct x as [n d]. unfold Qle, ToIntegerOrInfinity, inject_Z.
  cbn [Qnum Qden]. intros H.
  destruct (Z.le_gt_cases 0 n) as [Hn | Hn].
  - rewrite Z.quot_div_nonneg by lia.
    apply Z.div_le_upper_bound; lia.
  - replace n with (- - n) by ring. rewrite (Z.quot_opp_l (- n)) by discriminate.
    rewrite Z.quot_div_nonneg by lia.
    assert (- m <= - n / Z.pos d); [|lia].
    apply Z.div_le_lower_bound; lia.
Qed.

Lemma roundPositive_integer (a : Q) (n : Z) :
  0 < n -> (a == inject_Z n)%Q -> exists k, (roundPositive a == inject_Z k)%Q.
Proof.
  intros Hn Ea. unfold roundPositive.
  assert (Ha : (0 < a)%Q).
  { rewrite Ea. change 0%Q with (inject_Z 0). rewrite <- Zlt_Qlt. exact Hn. }
  destruct (floorLog2_spec a Ha) as [_ L2]. set (L := floorLog2 a) in *.
  assert (HL : 0 < L + 1).
  { apply (Qpower_lt_compat_l_inv 2); [|reflexivity].
    apply (Qle_lt_trans _ a); [|exact L2]. rewrite Ea.
    change (2 ^ 0)%Q with (inject_Z 1). rewrite <- Zle_Qle. lia. }
  set (e := Z.max (L - 52) (-1074)).
  destruct (Z.le_gt_cases 0 e) as [He | He].
  - exists (roundEven (a * 2 ^ (- e)) * 2 ^ e).
    rewrite inject_Z_mult, <- pow2_Z by exact He. reflexivity.
  - exists n.
    assert (EN : (a * 2 ^ (- e) == inject_Z (n * 2 ^ (- e)))%Q).
    { rewrite Ea, inject_Z_mult, <- pow2_Z by lia. reflexivity. }
    rewrite (roundEven_Z _ _ EN), <- EN, <- Qmult_assoc, pow2_cancel, Qmult_1_r.
    exact Ea.
Qed.

(** The Number nearest to an integer is an integer. *)
Lemma roundNumber_integer (z : Z) :
  (roundNumber (inject_Z z) == inject_Z (roundInteger z))%Q.
Proof.
  assert (H : exists k, (roundNumber (inject_Z z) == inject_Z k)%Q).
  { unfold roundNumber. cbn [Qnum inject_Z].
    destruct (Z.compare_spec z 0) as [E | Hlt | Hgt].
    - exists 0. reflexivity.
    - destruct (roundPositive_integer (- inject_Z z) (- z)) as [k Hk]; [lia | |].
      + rewrite inject_Z_opp. reflexivity.
      + exists (- k). rewrite Hk, inject_Z_opp. reflexivity.
    - apply (roundPositive_integer _ z); [exact Hgt | reflexivity]. }
  destruct H as [k Hk]. unfold roundInteger.
  rewrite (Qfloor_comp _ _ Hk), Qfloor_Z. exact Hk.
Qed.

(** *** Date arithmetic *)

Lemma ToIntegerOrInfinity_ge (x : Q) (m : Z) :
  (inject_Z m <= x)%Q -> m <= ToIntegerOrInfinity x.
Proof.
  destruct x as [n d]. unfold Qle, ToIntegerOrInfinity, inject_Z.
  cbn [Qnum Qden]. intros H.
  destruct (Z.le_gt_cases 0 n) as [Hn | Hn].
  - rewrite Z.quot_div_nonneg by lia.
    apply Z.div_le_lower_bound; lia.
  - replace n with (- - n) by ring. rewrite (Z.quot_opp_l (- n)) by discriminate.
    rewrite Z.quot_div_nonneg by lia.
    assert (- n / Z.pos d <= - m); [|lia].
    apply Z.div_le_upper_bound; lia.
Qed.

Lemma time_decomposition (t : Z) :
  Day t * msPerDay
  + (HourFromTime t * msPerHour + MinFromTime t * msPerMinute
     + SecFromTime t * msPerSecond + msFromTime t)
  = t.
Proof.
  unfold Day, HourFromTime, MinFromTime, SecFromTime,
    msFromTime, msPerDay, msPerHour, msPerMinute, msPerSecond.
  assert (H1 : t / 86400000 = t / 3600000 / 24)
    by (rewrite Z.div_div by lia; reflexivity).
  assert (H2 : t / 3600000 = t / 60000 / 60)
    by (rewrite Z.div_div by lia; reflexivity).
  assert (H3 : t / 60000 = t / 1000 / 60)
    by (rewrite Z.div_div by lia; reflexivity).
  pose proof (Z.div_mod (t / 3600000) 24 ltac:(lia)).
  pose proof (Z.div_mod (t / 60000) 60 ltac:(lia)).
  pose proof (Z.div_mod (t / 1000) 60 ltac:(lia)).
  pose proof (Z.div_mod t 1000 ltac:(lia)).
  lia.
Qed.

Lemma time_fields (t : Z) :
  0 <= HourFromTime t < 24 /\ 0 <= MinFromTime t < 60
  /\ 0 <= SecFromTime t < 60 /\ 0 <= msFromTime t < 1000.
Proof.
  unfold HourFromTime, MinFromTime, SecFromTime, msFromTime, msPerSecond.
  repeat split; apply Z.mod_pos_bound; lia.
Qed.

Lemma HourFromTime_nonneg (t : Z) : 0 <= HourFromTime t.
Proof. apply time_fields. Qed.

(** Below [2^53 / msPerHour] hours the sum of [MakeTime] is exact. *)
Lemma MakeTime_exact (hour min sec ms : Z) :
  Z.abs hour <= 2500000023 -> 0 <= min < 60 -> 0 <= sec < 60 ->
  0 <= ms < 1000 ->
  MakeTime hour min sec ms
  = hour * msPerHour + min * msPerMinute + sec * msPerSecond + ms.
Proof.
  intros Hh Hm Hs Hms.
  unfold MakeTime, Number_add, Number_multiply, msPerHour, msPerMinute,
    msPerSecond.
  rewrite (roundInteger_exact (hour * 3600000)) by lia.
  rewrite (roundInteger_exact (min * 60000)) by lia.
  rewrite (roundInteger_exact (sec * 1000)) by lia.
  rewrite (roundInteger_exact (hour * 3600000 + min * 60000)) by lia.
  rewrite (roundInteger_exact (hour * 3600000 + min * 60000 + sec * 1000)) by lia.
  apply roundInteger_exact. lia.
Qed.


Lemma Day_bound (t : Z) : t - msPerDay < Day t * msPerDay <= t.
Proof.
  unfold Day, msPerDay.
  pose proof (Z.div_mod t 86400000 ltac:(lia)).
  pose proof (Z.mod_pos_bound t 86400000 ltac:(lia)). lia.
Qed.

Lemma TimeClip_in_range (t : Z) :
  Z.abs t <= 8640000000000000 -> TimeClip t = Some t.
Proof.
  intros H. unfold TimeClip.
  destruct (Z.ltb_spec 8640000000000000 (Z.abs t)); [lia | reflexivity].
Qed.

Lemma TimeClip_out_of_range (t : Z) :
  8640000000000000 < Z.abs t -> TimeClip t = None.
Proof.
  intros H. unfold TimeClip.
  destruct (Z.ltb_spec 8640000000000000 (Z.abs t)); [reflexivity | lia].
Qed.

Lemma TimeClip_Some (t d : Z) :
  TimeClip t = Some d -> d = t /\ Z.abs t <= 8640000000000000.
Proof.
  unfold TimeClip.
  destruct (Z.ltb_spec 8640000000000000 (Z.abs t)) as [|Hr]; [discriminate|].
  intros E; injection E as <-. split; [reflexivity | exact Hr].
Qed.

Section SetHours.

Variable LocalTZA : Z -> bool -> Z.
Variable offset : Z.
Variable t : Z.
Hypothesis Ht : Z.abs t <= 8640000000000000.
Hypothesis Hoffset : Z.abs offset <= msPerDay.
Hypothesis Hlocal : LocalTZA t true = offset.

(** The local time value that [setHours] hands to [UTC], when the new
    hour is small enough for [MakeTime] to be exact: the sum of
    [MakeDate], rounded. *)
Lemma setHours_local (h : Q) :
  let k := ToIntegerOrInfinity h in
  Z.abs k <= 2500000023 ->
  setHours LocalTZA (Some t) (Some h)
  = TimeClip
      (UTC LocalTZA
         (roundInteger
            (t + offset + (k - HourFromTime (t + offset)) * msPerHour))).
Proof.
  intros k Hk. unfold setHours, LocalTime. rewrite Hlocal.
  set (t' := t + offset). fold k.
  destruct (time_fields t') as [Hh [Hm [Hs Hms]]].
  rewrite MakeTime_exact by assumption.
  unfold MakeDate, Number_add, Number_multiply.
  pose proof (Day_bound t') as HD. unfold msPerDay in *.
  rewrite (roundInteger_exact (Day t' * 86400000)) by (unfold t' in *; lia).
  do 3 f_equal. pose proof (time_decomposition t') as E.
  unfold msPerDay in E. lia.
Qed.

(** The new hour [k] lands in range: the result is exact. *)
Lemma setHours_in_range (h : Q) :
  let k := ToIntegerOrInfinity h in
  let d := t + (k - HourFromTime (t + offset)) * msPerHour in
  Z.abs k <= 2500000023 ->
  LocalTZA (d + offset) false = offset ->
  Z.abs d <= 8640000000000000 ->
  setHours LocalTZA (Some t) (Some h) = Some d.
Proof.
  intros k d Hk Hutc Hd. rewrite setHours_local by exact Hk. fold k.
  replace (t + offset + (k - HourFromTime (t + offset)) * msPerHour)
    with (d + offset) by (unfold d; ring).
  unfold msPerDay in *.
  rewrite roundInteger_exact by lia.
  unfold UTC, Number_subtract. rewrite Hutc.
  replace (d + offset - offset) with d by ring.
  rewrite roundInteger_exact by lia.
  apply TimeClip_in_range, Hd.
Qed.

(** With the same offset at every local time, also out of range. *)
Lemma setHours_TimeClip (h : Q) :
  let k := ToIntegerOrInfinity h in
  (forall u, LocalTZA u false = offset) ->
  Z.abs k <= 2500000023 ->
  setHours LocalTZA (Some t) (Some h)
  = TimeClip (t + (k - HourFromTime (t + offset)) * msPerHour).
Proof.
  intros k Hutc Hk.
  set (d := t + (k - HourFromTime (t + offset)) * msPerHour).
  destruct (Z.le_gt_cases (Z.abs d) 8640000000000000) as [Hd | Hd].
  - rewrite TimeClip_in_range by exact Hd.
    apply setHours_in_range; [exact Hk | apply Hutc | exact Hd].
  - rewrite (TimeClip_out_of_range d) by exact Hd.
    rewrite setHours_local by exact Hk. fold k.
    replace (t + offset + (k - HourFromTime (t + offset)) * msPerHour)
      with (d + offset) by (unfold d; ring).
    unfold UTC, Number_subtract. rewrite Hutc.
    apply TimeClip_out_of_range. unfold msPerDay in *.
    destruct (Z.le_gt_cases 0 d) as [Hpos | Hneg].
    + pose proof (roundInteger_ge (d + offset) (8640000000000001 + offset)
                    ltac:(lia) ltac:(lia)) as H1.
      pose proof (roundInteger_ge (roundInteger (d + offset) - offset)
                    8640000000000001 ltac:(lia) ltac:(lia)). lia.
    + pose proof (roundInteger_le (d + offset) (- 8640000000000001 + offset)
                    ltac:(lia) ltac:(lia)) as H1.
      pose proof (roundInteger_le (roundInteger (d + offset) - offset)
                    (- 8640000000000001) ltac:(lia) ltac:(lia)). lia.
Qed.


End SetHours.

(** The hour that [calculateSLADeadline] sets. *)
Lemma hourSum_int (h n : Z) :
  Z.abs (h + n) < 9007199254740992 ->
  ToIntegerOrInfinity (roundNumber (inject_Z h + inject_Z n)) = h + n.
Proof.
  intros H. apply ToIntegerOrInfinity_Z. rewrite <- inject_Z_plus.
  apply (roundNumber_exact _ (h + n) 0); [exact H | lia |].
  change (2 ^ (- 0))%Q with 1%Q. ring.
Qed.

Lemma hourSum_le (h m : Z) (q : Q) :
  Z.abs m <= 9007199254740992 -> (q <= inject_Z (m - h))%Q ->
  ToIntegerOrInfinity (roundNumber (inject_Z h + q)) <= m.
Proof.
  intros Hm Hq. apply ToIntegerOrInfinity_le, roundNumber_le; [exact Hm|].
  replace m with (h + (m - h)) by ring. rewrite inject_Z_plus.
  apply Qplus_le_compat; [apply Qle_refl | exact Hq].
Qed.

Lemma hourSum_ge (h m : Z) (q : Q) :
  Z.abs m <= 9007199254740992 -> (inject_Z (m - h) <= q)%Q ->
  m <= ToIntegerOrInfinity (roundNumber (inject_Z h + q)).
Proof.
  intros Hm Hq. apply ToIntegerOrInfinity_ge, roundNumber_ge; [exact Hm|].
  replace m with (h + (m - h)) by ring. rewrite inject_Z_plus.
  apply Qplus_le_compat; [apply Qle_refl | exact Hq].
Qed.

Lemma ToIntegerOrInfinity_floor (h : Z) (q : Q) :
  0 <= h -> (0 <= q)%Q -> ToIntegerOrInfinity (inject_Z h + q) = h + Qfloor q.
Proof.
  intros Hh Hq. unfold ToIntegerOrInfinity, Qplus, inject_Z.
  destruct q as [num den]. unfold Qle in Hq. simpl in *.
  rewrite Z.quot_div_nonneg by nia.
  rewrite Z.mul_1_r. apply Z.div_add_l. discriminate.
Qed.

(** On a binary fraction of moderate size the sum is exact. *)
Lemma hourSum_floor (h : Z) (q : Q) :
  0 <= h < 24 -> (0 <= q)%Q -> (q <= 1048576)%Q ->
  (Z.pos (Qden q) | 2 ^ 20) ->
  ToIntegerOrInfinity (roundNumber (inject_Z h + q)) = h + Qfloor q.
Proof.
  intros Hh Hq0 Hq1 [c Hc].
  rewrite <- (ToIntegerOrInfinity_floor h q) by (lia || assumption).
  apply ToIntegerOrInfinity_comp.
  destruct q as [num den]. cbn [Qden] in Hc.
  unfold Qle in Hq0, Hq1. cbn [Qnum Qden inject_Z] in Hq0, Hq1.
  change (2 ^ 20) with 1048576 in Hc.
  assert (Hcpos : 0 < c) by nia.
  apply (roundNumber_exact _ (h * 1048576 + num * c) 20).
  - change (2 ^ 53) with 9007199254740992.
    assert (num * c <= 1048576 * 1048576) by nia.
    assert (0 <= num * c) by nia. lia.
  - lia.
  - setoid_replace (2 ^ (- 20))%Q with (1 # 1048576)%Q by reflexivity.
    unfold Qeq, Qplus, Qmult, inject_Z. cbn [Qnum Qden].
    rewrite !Pos2Z.inj_mul. change (Z.pos 1048576) with 1048576. nia.
Qed.

Lemma calculateSLADeadline_setHours (LocalTZA : Z -> bool -> Z)
  (createdAt : Z) (slaHours : Q) :
  Z.abs createdAt <= 8640000000000000 ->
  calculateSLADeadline LocalTZA (Some createdAt) slaHours
  = setHours LocalTZA (Some createdAt)
      (Some (roundNumber
               (inject_Z (HourFromTime (createdAt + LocalTZA createdAt true))
                + slaHours))).
Proof.
  intros H. unfold calculateSLADeadline, newDate.
  rewrite (TimeClip_in_range _ H). reflexivity.
Qed.


(** The same in a time zone of one constant offset, where a result out
    of range is an Invalid Date. *)
Lemma calculateSLADeadline_eq (LocalTZA : Z -> bool -> Z)
  (offset createdAt k : Z) (slaHours : Q) :
  (forall t b, LocalTZA t b = offset) ->
  Z.abs createdAt <= 8640000000000000 ->
  Z.abs offset <= msPerDay ->
  ToIntegerOrInfinity
    (roundNumber (inject_Z (HourFromTime (createdAt + offset)) + slaHours))
  = HourFromTime (createdAt + offset) + k ->
  Z.abs k <= 2500000000 ->
  calculateSLADeadline LocalTZA (Some createdAt) slaHours
  = TimeClip (createdAt + k * msPerHour).
Proof.
  intros Htz Ht Ho Ek Hk.
  rewrite calculateSLADeadline_setHours by exact Ht. rewrite Htz.
  pose proof (time_fields (createdAt + offset)) as [Hh _].
  rewrite (setHours_TimeClip LocalTZA offset createdAt Ht Ho (Htz _ _));
    rewrite ?Ek; [|intros u; apply Htz | lia].
  do 2 f_equal. ring.
Qed.

Lemma calculateSLADeadline_int (LocalTZA : Z -> bool -> Z)
  (offset createdAt n : Z) :
  (forall t b, LocalTZA t b = offset) ->
  Z.abs createdAt <= 8640000000000000 ->
  Z.abs offset <= msPerDay ->
  Z.abs n <= 2500000000 ->
  calculateSLADeadline LocalTZA (Some createdAt) (inject_Z n)
  = TimeClip (createdAt + n * msPerHour).
Proof.
  intros Htz Ht Ho Hn.
  pose proof (time_fields (createdAt + offset)) as [Hh _].
  apply (calculateSLADeadline_eq _ offset); try assumption.
  apply hourSum_int. lia.
Qed.





(** Why the offset has to be the same at both ends: across the
    daylight-saving change 24 wall-clock hours are 23 hours of elapsed
    time. *)
Example calculateSLADeadline_dst :
  calculateSLADeadline usEastern2024 (Some 1710003600000) (inject_Z 24)
  = Some (1710003600000 + 23 * msPerHour).
Proof. vm_compute. reflexivity. Qed.

(** Past the last representable instant the result is an Invalid Date. *)
Example calculateSLADeadline_out_of_range :
  calculateSLADeadline (fun _ _ => 0) (Some 8640000000000000) (inject_Z 1)
  = None.
Proof. vm_compute. reflexivity. Qed.

(** Why the number of hours is bounded: beyond [2^53] milliseconds the
    sum of [MakeTime] is rounded, here to an even number of
    milliseconds, and the deadline is a millisecond short. *)
Example calculateSLADeadline_rounded :
  calculateSLADeadline (fun _ _ => 0) (Some (-8639999999999999))
    (inject_Z 4799999999)
  = Some (-8639999999999999 + 4799999999 * msPerHour - 1).
Proof. vm_compute. reflexivity. Qed.

(** The sum [getHours() + slaHours] is a Number: at 16:00 an SLA of
    [2 - 2^-52] hours makes the hour 18, two hours later. *)
Example calculateSLADeadline_hour_rounded :
  calculateSLADeadline (fun _ _ => 0) (Some (16 * msPerHour))
    (9007199254740991 # 4503599627370496)
  = Some (18 * msPerHour).
Proof. vm_compute. reflexivity. Qed.

(** [roundNumber] against the binary64 arithmetic of the machine: the
    conversion of integers past [2^53], the sum of [MakeTime] in the
    example above, and the hour sum of the last one. *)
Example roundNumber_on_doubles :
  map (fun z => Math_round (ofZ z))
    [9007199254740993; 9007199254740995; 9007199254740994;
     17279999996400001; -9007199254740993; 8640000000000000]
  = map roundInteger
      [9007199254740993; 9007199254740995; 9007199254740994;
       17279999996400001; -9007199254740993; 8640000000000000]
  /\ Math_round (ofZ 4800000000 * 3600000 + ofZ 0 * 60000 + ofZ 0 * 1000
                 + ofZ 1)%float
     = MakeTime 4800000000 0 0 1
  /\ Math_round (16 + 0x1.fffffffffffffp+0)%float
     = ToIntegerOrInfinity
         (roundNumber (inject_Z 16 + (9007199254740991 # 4503599627370496)))
  /\ Prim2SF (1 / 10)%float = S754_finite false 7205759403792794 (-56)
  /\ roundNumber (1 # 10) = (7205759403792794 # 72057594037927936)%Q.
Proof. vm_compute. repeat split. Qed.

(** ** Keyword extraction *)

Lemma filter_twice {A} (f g : A -> bool) (l : list A) :
  filter f (filter g l) = filter (fun x => g x && f x) l.
Proof.
  induction l as [|x l IH]; simpl; [reflexivity|].
  destruct (g x); simpl; [destruct (f x)|]; now rewrite IH.
Qed.

Lemma filter_all {A} (f : A -> bool) (l : list A) :
  (forall x, f x = true) -> filter f l = l.
Proof.
  intros H. induction l as [|x l IH]; simpl; [reflexivity|].
  now rewrite H, IH.
Qed.

Lemma fold_left_concat_map {A B E} (f : A -> B -> A) (g : E -> list B)
  (es : list E) (a : A) :
  fold_left (fun acc e => fold_left f (g e) acc) es a
  = fold_left f (List.concat (map g es)) a.
Proof.
  revert a; induction es as [|e es IH]; intros a; simpl; [reflexivity|].
  now rewrite fold_left_app, IH.
Qed.

Lemma arrIncludes_app (found : list jsstring) (kw x : jsstring) :
  arrIncludes (found ++ [kw]) x = arrIncludes found x || JsString.eqb x kw.
Proof.
  unfold arrIncludes. rewrite existsb_app. simpl. now rewrite orb_false_r.
Qed.

(** The push loop appends, in order, the first occurrence of every
    matching keyword that is not in [found] yet. *)
Lemma pushLoop_spec (processed : jsstring) (kws found : list jsstring) :
  fold_left (pushIfNew processed) kws found
  = found
    ++ filter (fun kw => negb (arrIncludes found kw))
         (firstOccurrences (filter (includes processed) kws)).
Proof.
  revert found; induction kws as [|kw kws IH]; intros found.
  - simpl. now rewrite app_nil_r.
  - cbn [fold_left filter]. rewrite IH. unfold pushIfNew.
    destruct (includes processed kw); cbn [andb]; [|reflexivity].
    cbn [firstOccurrences filter].
    destruct (arrIncludes found kw) eqn:Ein; cbn [negb].
    + f_equal. rewrite filter_twice. apply filter_ext. intros x.
      destruct (JsString.eqb x kw) eqn:Ex; [|reflexivity].
      apply jseqb_eq in Ex; subst x. now rewrite Ein.
    + rewrite <- app_assoc. cbn [app]. do 2 f_equal.
      rewrite filter_twice. apply filter_ext. intros x.
      rewrite arrIncludes_app, negb_orb. apply andb_comm.
Qed.

Lemma firstOccurrences_incl (l : list jsstring) (x : jsstring) :
  In x (firstOccurrences l) <-> In x l.
Proof.
  induction l as [|y l IH]; simpl; [tauto|].
  rewrite filter_In, IH, negb_true_iff, jseqb_neq.
  destruct (list_eq_dec N.eq_dec x y) as [-> | Hne]; [tauto|].
  split; [tauto | intros [E | H]; [congruence | tauto]].
Qed.

Lemma firstOccurrences_NoDup (l : list jsstring) : NoDup (firstOccurrences l).
Proof.
  induction l as [|x l IH]; simpl; constructor.
  - rewrite filter_In, jseqb_refl. intros [_ H]; discriminate.
  - now apply NoDup_filter.
Qed.

Lemma extractKeywords_spec (text : jsstring) :
  extractKeywords text
  = firstn 10
      (firstOccurrences (filter (includes (preprocessText text)) scanOrder)).
Proof.
  unfold extractKeywords, scanOrder. cbv zeta. f_equal.
  rewrite (fold_left_concat_map (pushIfNew (preprocessText text)) snd).
  rewrite <- fold_left_app, pushLoop_spec. cbn [app].
  apply filter_all. reflexivity.
Qed.

(** C6: [extractKeywords] returns the first 10 entries of the matching
    keywords taken in scan order (categories in declaration order, then
    the urgent list, then the high list), each kept at its first
    occurrence only; so it has at most 10 entries, no duplicate, and
    every entry is a dictionary keyword that occurs in the preprocessed
    text. *)
Theorem extractKeywords_scan_order (text : jsstring) :
  extractKeywords text
  = firstn 10
      (firstOccurrences (filter (includes (preprocessText text)) scanOrder))
  /\ (List.length (extractKeywords text) <= 10)%nat
  /\ NoDup (extractKeywords text)
  /\ (forall kw, In kw (extractKeywords text) ->
                 In kw scanOrder /\ includes (preprocessText text) kw = true).
Proof.
  split; [apply extractKeywords_spec|]. rewrite extractKeywords_spec.
  split; [apply firstn_le_length|]. split.
  - apply (NoDup_app_remove_r _ (skipn 10 (firstOccurrences
             (filter (includes (preprocessText text)) scanOrder)))).
    rewrite firstn_skipn. apply firstOccurrences_NoDup.
  - intros kw H.
    assert (H' : In kw (firstOccurrences
                          (filter (includes (preprocessText text)) scanOrder))).
    { rewrite <- (firstn_skipn 10). apply in_or_app; now left. }
    apply (proj1 (firstOccurrences_incl _ _)) in H'.
    now apply (proj1 (filter_In _ _ _)) in H'.
Qed.

Lemma extractKeywords_scan_order_witness :
  (List.length
     (extractKeywords
        (str "Flood! Broken pipe leak, no power, wifi down, road crack, trash smell, theft, old door, urgent for days")) <= 10)%nat.
Proof.
  apply (extractKeywords_scan_order
           (str "Flood! Broken pipe leak, no power, wifi down, road crack, trash smell, theft, old door, urgent for days")).
Defined.

(** The cap keeps the first ten matches of the scan, not the most
    telling ones: "urgent" and "days", matched last, are cut. *)
Example extractKeywords_cap :
  extractKeywords
    (str "Flood! Broken pipe leak, no power, wifi down, road crack, trash smell, theft, old door, urgent for days")
  = map str ["pipe"; "leak"; "flood"; "power"; "no power"; "wifi"; "road";
             "crack"; "trash"; "smell"]%string.
Proof. vm_compute. reflexivity. Qed.

(** ** Department suggestion *)

Lemma find_app_first {A} (f : A -> bool) (l1 : list A) (x : A) (l2 : list A) :
  (forall y, In y l1 -> f y = false) -> f x = true ->
  find f (l1 ++ x :: l2) = Some x.
Proof.
  intros H Hx. induction l1 as [|y l1 IH]; simpl.
  - now rewrite Hx.
  - rewrite (H y (or_introl eq_refl)). apply IH. intros; apply H; now right.
Qed.

Lemma find_first {A} (f : A -> bool) (l : list A) (x : A) :
  find f l = Some x ->
  exists l1 l2,
    l = l1 ++ x :: l2 /\ f x = true /\ (forall y, In y l1 -> f y = false).
Proof.
  induction l as [|y l IH]; simpl; [discriminate|].
  destruct (f y) eqn:Ey.
  - intros H; injection H as <-. exists [], l. simpl; tauto.
  - intros H. destruct (IH H) as [l1 [l2 [-> [Hx Hl]]]].
    exists (y :: l1), l2. repeat split; [exact Hx|].
    intros z [<- | Hz]; [exact Ey | now apply Hl].
Qed.

Lemma arrIncludes_false (arr : list jsstring) (x : jsstring) :
  arrIncludes arr x = false <-> ~ In x arr.
Proof.
  rewrite <- arrIncludes_In. destruct (arrIncludes arr x); split; congruence.
Qed.

(** C8: the suggested department is the first one, in the order of the
    list the caller passes, whose categories contain the category that
    [classifyCategory] resolved for the title and description joined by a
    space; there is none exactly when no department matches; and the
    water complaint of the specification is classified [water], [urgent]
    and sent to department "d1". *)
Theorem suggestedDepartment_first_match (title description : jsstring)
  (departments : list DepartmentDescriptor) :
  (exists r cr,
     classifyCategory (title ++ [32%N] ++ description) = Some cr
     /\ classifyComplaint title description departments = Some r
     /\ category r = cr_category cr
     /\ (forall ds1 d ds2,
           departments = ds1 ++ d :: ds2 ->
           In (categoryName (category r)) (dept_categories d) ->
           (forall d', In d' ds1 ->
                       ~ In (categoryName (category r)) (dept_categories d')) ->
           suggestedDepartmentId r = Some (dept_id d))
     /\ (forall i,
           suggestedDepartmentId r = Some i ->
           exists ds1 d ds2,
             departments = ds1 ++ d :: ds2 /\ dept_id d = i
             /\ In (categoryName (category r)) (dept_categories d)
             /\ (forall d', In d' ds1 ->
                   ~ In (categoryName (category r)) (dept_categories d')))
     /\ (suggestedDepartmentId r = None <->
         forall d, In d departments ->
                   ~ In (categoryName (category r)) (dept_categories d)))
  /\ (exists r,
        classifyComplaint (str "No water in building A")
          (str "There has been no water supply for 3 days, very urgent issue")
          [ {| dept_id := str "d1"; dept_categories := [str "water"] |} ]
        = Some r
        /\ category r = water
        /\ priority r = urgent
        /\ suggestedDepartmentId r = Some (str "d1")).
Proof.
  split; [|eexists; split; [vm_compute; reflexivity | repeat split]].
  destruct (classifyCategory_total (title ++ [32%N] ++ description)) as [cr E].
  unfold classifyComplaint. rewrite E.
  eexists; exists cr. split; [reflexivity|]. split; [reflexivity|].
  cbn [category suggestedDepartmentId]. split; [reflexivity|].
  set (f := fun d => arrIncludes (dept_categories d)
                       (categoryName (cr_category cr))).
  split; [|split].
  - intros ds1 d ds2 -> Hd Hds1.
    rewrite (find_app_first f ds1 d ds2); [reflexivity | |].
    + intros y Hy. apply arrIncludes_false. now apply Hds1.
    + now apply arrIncludes_In.
  - intros i Hi. destruct (find f departments) as [d|] eqn:Ef; [|discriminate].
    injection Hi as <-.
    destruct (find_first f departments d Ef) as [ds1 [ds2 [-> [Hd Hds1]]]].
    exists ds1, d, ds2. repeat split.
    + now apply arrIncludes_In.
    + intros d' Hd'. apply arrIncludes_false. now apply Hds1.
  - destruct (find f departments) as [d|] eqn:Ef; cbn [option_map]; split.
    + discriminate.
    + intros H. apply find_some in Ef as [Hin Hd].
      apply arrIncludes_In in Hd. exfalso. exact (H d Hin Hd).
    + intros _ d Hin. apply arrIncludes_false.
      exact (find_none f departments Ef d Hin).
    + reflexivity.
Qed.

Lemma suggestedDepartment_first_match_witness :
  exists r,
    classifyComplaint (str "Street light broken") (str "no power since monday")
      [ {| dept_id := str "roads"; dept_categories := [str "infrastructure"] |};
        {| dept_id := str "grid"; dept_categories := [str "electrical"] |};
        {| dept_id := str "backup";
           dept_categories := [str "water"; str "electrical"] |} ]
    = Some r
    /\ suggestedDepartmentId r = Some (str "grid").
Proof.
  destruct (suggestedDepartment_first_match
              (str "Street light broken") (str "no power since monday")
              [ {| dept_id := str "roads";
                   dept_categories := [str "infrastructure"] |};
                {| dept_id := str "grid";
                   dept_categories := [str "electrical"] |};
                {| dept_id := str "backup";
                   dept_categories := [str "water"; str "electrical"] |} ])
    as [[r [cr [Ecr [Er [Ecat [Hfirst _]]]]]] _].
  exists r. split; [exact Er|].
  vm_compute in Ecr. injection Ecr as <-. cbn [cr_category] in Ecat.
  rewrite Ecat in Hfirst.
  apply (Hfirst [ {| dept_id := str "roads";
                     dept_categories := [str "infrastructure"] |} ]
           {| dept_id := str "grid"; dept_categories := [str "electrical"] |}
           [ {| dept_id := str "backup";
                dept_categories := [str "water"; str "electrical"] |} ]).
  - reflexivity.
  - left; reflexivity.
  - intros d' [<- | []]. simpl. intros [H | []]. discriminate.
Defined.

(** ** Objects as insertion-ordered dictionaries *)

Section ObjectFacts.

Context {K V : Type}.
Variable keqb : K -> K -> bool.
Hypothesis keqb_eq : forall a b, keqb a b = true <-> a = b.

Lemma keqb_refl (k : K) : keqb k k = true.
Proof. now apply keqb_eq. Qed.

Lemma objGet_objSet (o : list (K * V)) (k : K) (v : V) (k' : K) :
  objGet keqb (objSet keqb o k v) k'
  = if keqb k k' then Some v else objGet keqb o k'.
Proof.
  induction o as [|[k0 v0] o IH]; simpl; [reflexivity|].
  destruct (keqb k0 k) eqn:E0; simpl.
  - apply keqb_eq in E0; subst k0. now destruct (keqb k k').
  - rewrite IH. destruct (keqb k0 k') eqn:E1; [|reflexivity].
    destruct (keqb k k') eqn:E2; [|reflexivity].
    apply keqb_eq in E1, E2. subst. rewrite keqb_refl in E0. discriminate.
Qed.

Lemma objGet_None (o : list (K * V)) (k : K) :
  objGet keqb o k = None <-> ~ In k (map fst o).
Proof.
  induction o as [|[k0 v0] o IH]; simpl; [tauto|].
  destruct (keqb k0 k) eqn:E.
  - apply keqb_eq in E. split; [discriminate | tauto].
  - rewrite IH. split; [|tauto].
    intros H [H0 | H1]; [|tauto].
    apply keqb_eq in H0. congruence.
Qed.

Lemma objGet_In (o : list (K * V)) (k : K) (v : V) :
  NoDup (map fst o) -> In (k, v) o -> objGet keqb o k = Some v.
Proof.
  induction o as [|[k0 v0] o IH]; simpl; [tauto|].
  intros Hnd [E | Hin]; inversion Hnd as [|? ? Hk Hnd']; subst.
  - injection E as -> ->. now rewrite keqb_refl.
  - destruct (keqb k0 k) eqn:E; [|now apply IH].
    apply keqb_eq in E; subst k0. exfalso. apply Hk.
    apply in_map_iff. now exists (k, v).
Qed.

Lemma objSet_keys (o : list (K * V)) (k : K) (v : V) :
  map fst (objSet keqb o k v)
  = match objGet keqb o k with
    | Some _ => map fst o
    | None => map fst o ++ [k]
    end.
Proof.
  induction o as [|[k0 v0] o IH]; simpl; [reflexivity|].
  destruct (keqb k0 k) eqn:E; simpl; [reflexivity|].
  rewrite IH. now destruct (objGet keqb o k).
Qed.

Lemma objSet_NoDup (o : list (K * V)) (k : K) (v : V) :
  NoDup (map fst o) -> NoDup (map fst (objSet keqb o k v)).
Proof.
  intros Hnd. rewrite objSet_keys.
  destruct (objGet keqb o k) eqn:E; [exact Hnd|].
  apply objGet_None in E.
  apply (Permutation_NoDup (l := k :: map fst o)).
  - apply Permutation_cons_append.
  - now constructor.
Qed.

End ObjectFacts.

Lemma ComplaintCategory_eqb_eq (a b : ComplaintCategory) :
  ComplaintCategory_eqb a b = true <-> a = b.
Proof. destruct a, b; simpl; split; congruence. Qed.

Lemma ComplaintCategory_eq_dec (a b : ComplaintCategory) : {a = b} + {a <> b}.
Proof. decide equality. Qed.

(** ** Pattern analysis *)

Section PatternFacts.

Variable LocalTZA : Z -> bool -> Z.

Lemma countStep_fst (st : CountState) (c : Complaint) :
  fst (countStep LocalTZA st c) = bumpCount (fst st) c.
Proof. destruct st; reflexivity. Qed.

Lemma countLoop_fst (cs : list Complaint) (st : CountState) :
  fst (fold_left (countStep LocalTZA) cs st) = fold_left bumpCount cs (fst st).
Proof.
  revert st; induction cs as [|c cs IH]; intros st; simpl; [reflexivity|].
  now rewrite IH, countStep_fst.
Qed.

Lemma categoryCountOf_nonneg (cs : list Complaint) (k : ComplaintCategory) :
  0 <= categoryCountOf cs k.
Proof. unfold categoryCountOf. lia. Qed.

Lemma categoryCountOf_snoc (cs : list Complaint) (c : Complaint)
  (k : ComplaintCategory) :
  categoryCountOf (cs ++ [c]) k
  = categoryCountOf cs k
    + (if ComplaintCategory_eqb (c_category c) k then 1 else 0).
Proof.
  unfold categoryCountOf. rewrite filter_app, length_app. simpl.
  destruct (ComplaintCategory_eqb (c_category c) k); simpl; lia.
Qed.

(** After the counting loop [categoryCount] has one key per category that
    occurs, holding the number of its complaints. *)
Lemma countLoop_invariant (cs : list Complaint) :
  NoDup (map fst (fold_left bumpCount cs []))
  /\ forall k,
       objGet ComplaintCategory_eqb (fold_left bumpCount cs []) k
       = if categoryCountOf cs k =? 0 then None
         else Some (categoryCountOf cs k).
Proof.
  induction cs as [|c cs [IHn IHg]] using rev_ind.
  - split; [constructor | reflexivity].
  - rewrite fold_left_app. cbn [fold_left]. unfold bumpCount at 1 3. split.
    + now apply (objSet_NoDup _ ComplaintCategory_eqb_eq).
    + intros k.
      rewrite (objGet_objSet _ ComplaintCategory_eqb_eq), categoryCountOf_snoc.
      pose proof (categoryCountOf_nonneg cs k) as Hk.
      destruct (ComplaintCategory_eqb (c_category c) k) eqn:E.
      * apply ComplaintCategory_eqb_eq in E; subst k. rewrite IHg.
        destruct (Z.eqb_spec (categoryCountOf cs (c_category c)) 0) as [E0|E0];
          destruct (Z.eqb_spec (categoryCountOf cs (c_category c) + 1) 0);
          try lia; simpl; [now rewrite E0 | reflexivity].
      * rewrite IHg, Z.add_0_r. reflexivity.
Qed.

Lemma countLoop_entry (cs : list Complaint) (k : ComplaintCategory) (n : Z) :
  In (k, n) (fold_left bumpCount cs []) ->
  n = categoryCountOf cs k /\ 0 < n.
Proof.
  destruct (countLoop_invariant cs) as [Hnd Hget]. intros Hin.
  apply (objGet_In _ ComplaintCategory_eqb_eq _ _ _ Hnd) in Hin.
  rewrite Hget in Hin. pose proof (categoryCountOf_nonneg cs k).
  destruct (Z.eqb_spec (categoryCountOf cs k) 0); [discriminate|].
  injection Hin as <-. lia.
Qed.

Lemma countLoop_keys (cs : list Complaint) (k : ComplaintCategory) :
  In k (map fst (fold_left bumpCount cs [])) <-> 0 < categoryCountOf cs k.
Proof.
  destruct (countLoop_invariant cs) as [_ Hget].
  pose proof (categoryCountOf_nonneg cs k).
  pose proof (objGet_None _ ComplaintCategory_eqb_eq
                (fold_left bumpCount cs []) k) as Hn.
  rewrite Hget in Hn.
  destruct (Z.eqb_spec (categoryCountOf cs k) 0) as [E0|E0].
  - split; [|lia]. intros Hin. exfalso. now apply (proj1 Hn).
  - split; [lia|]. intros _.
    destruct (in_dec ComplaintCategory_eq_dec k
                (map fst (fold_left bumpCount cs []))) as [Hin|Hin];
      [exact Hin|].
    apply Hn in Hin. discriminate.
Qed.

End PatternFacts.

Section PatternProperties.

Variable LocalTZA : Z -> bool -> Z.

Lemma insightFor_category
  (categoryByDay : list (ComplaintCategory * list (jsstring * Z)))
  (total : Z) (entry : ComplaintCategory * Z) :
  pi_category (insightFor categoryByDay total entry) = fst entry.
Proof. destruct entry; reflexivity. Qed.

Lemma ComplaintCategory_eqb_refl (k : ComplaintCategory) :
  ComplaintCategory_eqb k k = true.
Proof. now destruct k. Qed.

Lemma countStep_first (k : ComplaintCategory) (d : jsstring) (c : Complaint) :
  c_category c = k -> weekdayLong LocalTZA (c_createdAt c) = d ->
  countStep LocalTZA ([], []) c = ([(k, 1)], [(k, [(d, 1)])]).
Proof.
  intros Hk Hd. unfold countStep. rewrite Hk, Hd.
  cbn [objGet objSet orElse]. rewrite ComplaintCategory_eqb_refl.
  reflexivity.
Qed.

Lemma countStep_same (k : ComplaintCategory) (d : jsstring) (m : Z)
  (c : Complaint) :
  c_category c = k -> weekdayLong LocalTZA (c_createdAt c) = d ->
  countStep LocalTZA ([(k, m)], [(k, [(d, m)])]) c
  = ([(k, m + 1)], [(k, [(d, m + 1)])]).
Proof.
  intros Hk Hd. unfold countStep. rewrite Hk, Hd.
  cbn [objGet objSet orElse]. rewrite ComplaintCategory_eqb_refl.
  cbn [objGet objSet orElse]. rewrite ComplaintCategory_eqb_refl.
  cbn [objGet objSet orElse]. rewrite jseqb_refl. reflexivity.
Qed.

(** Complaints of one category, all on one weekday, leave one counter
    and one weekday bucket. *)
Lemma countLoop_uniform (k : ComplaintCategory) (d : jsstring)
  (cs : list Complaint) (m : Z) :
  (forall c, In c cs ->
             c_category c = k /\ weekdayLong LocalTZA (c_createdAt c) = d) ->
  fold_left (countStep LocalTZA) cs ([(k, m)], [(k, [(d, m)])])
  = ([(k, m + Z.of_nat (List.length cs))],
     [(k, [(d, m + Z.of_nat (List.length cs))])]).
Proof.
  revert m; induction cs as [|c cs IH]; intros m H.
  - simpl. now rewrite Z.add_0_r.
  - cbn [fold_left]. destruct (H c (or_introl eq_refl)) as [Hk Hd].
    rewrite (countStep_same k d m c Hk Hd), IH
      by (intros; apply H; now right).
    replace (m + 1 + Z.of_nat (List.length cs))
      with (m + Z.of_nat (List.length (c :: cs)))
      by (cbn [List.length]; lia).
    reflexivity.
Qed.

(** C9: for a non-empty collection every insight has frequency
    [round(categoryCount / totalComplaints * 100)] (evaluated on doubles
    as the source does) and trend [increasing] above 20, [stable] above
    10, [decreasing] otherwise; the insights are sorted by descending
    frequency, one per category that occurs; and 10 water complaints of
    a single weekday give one insight of frequency 100, trend
    [increasing] and that weekday as the only peak day. *)
Theorem analyzePatterns_frequency_trend (complaints : list Complaint) :
  complaints <> [] ->
  let insights := analyzePatterns LocalTZA complaints in
  let total := Z.of_nat (List.length complaints) in
  (forall i, In i insights ->
     pi_frequency i
     = Math_round
         (ofZ (categoryCountOf complaints (pi_category i)) / ofZ total * 100)%float
     /\ pi_trend i
        = if 20 <? pi_frequency i then increasing
          else if 10 <? pi_frequency i then stable
          else decreasing)
  /\ StronglySorted (fun a b => pi_frequency b <= pi_frequency a) insights
  /\ NoDup (map pi_category insights)
  /\ (forall k, In k (map pi_category insights)
                <-> 0 < categoryCountOf complaints k)
  /\ (forall day,
        List.length complaints = 10%nat ->
        (forall c, In c complaints ->
                   c_category c = water
                   /\ weekdayLong LocalTZA (c_createdAt c) = day) ->
        insights
        = [ {| pi_category := water;
               pi_frequency := 100;
               pi_trend := increasing;
               pi_peakDays := [day];
               pi_recommendation :=
                 str "High volume of water complaints. Consider preventive maintenance schedule." |} ]).
Proof.
  intros Hne insights total. subst insights. unfold analyzePatterns.
  pose proof (countLoop_fst LocalTZA complaints ([], [])) as Hfst.
  destruct (fold_left (countStep LocalTZA) complaints ([], []))
    as [categoryCount categoryByDay] eqn:Eloop.
  cbn [fst] in Hfst. subst categoryCount.
  fold total.
  assert (Htotal : (total =? 0) = false).
  { apply Z.eqb_neq. unfold total. destruct complaints; [congruence|].
    cbn [List.length]. lia. }
  rewrite Htotal.
  set (cc := fold_left bumpCount complaints []) in *.
  set (raw := map (insightFor categoryByDay total) cc).
  pose proof (sort_perm pi_frequency raw) as Hperm.
  assert (Hcats : map pi_category raw = map fst cc).
  { unfold raw. rewrite map_map. apply map_ext.
    intros e. apply insightFor_category. }
  split; [|split; [apply sort_sorted|split; [|split]]].
  - intros i Hin. apply (Permutation_in _ Hperm) in Hin.
    unfold raw in Hin. apply in_map_iff in Hin as [[k n] [<- Hkn]].
    apply countLoop_entry in Hkn as [-> _].
    cbn [insightFor pi_frequency pi_category pi_trend]. split; reflexivity.
  - apply (Permutation_NoDup
             (Permutation_map pi_category (Permutation_sym Hperm))).
    rewrite Hcats. apply countLoop_invariant.
  - intros k. rewrite <- countLoop_keys. fold cc. rewrite <- Hcats.
    split; apply Permutation_in; apply Permutation_map;
      [exact Hperm | exact (Permutation_sym Hperm)].
  - intros day Hlen Hall.
    destruct complaints as [|c cs]; [congruence|].
    cbn [fold_left] in Eloop.
    destruct (Hall c (or_introl eq_refl)) as [Hk Hd].
    rewrite (countStep_first water day c Hk Hd) in Eloop.
    rewrite (countLoop_uniform water day cs 1) in Eloop
      by (intros; apply Hall; now right).
    injection Eloop as Ecc Ebd.
    assert (Elen : Z.of_nat (List.length cs) = 9)
      by (cbn [List.length] in Hlen; lia).
    rewrite Elen in Ecc, Ebd.
    assert (Et : total = 10) by (unfold total; lia).
    subst raw cc. rewrite <- Ecc, <- Ebd, Et. vm_compute. reflexivity.
Qed.

End PatternProperties.

Lemma analyzePatterns_frequency_trend_witness :
  analyzePatterns (fun _ _ => 0)
    (map (fun t => {| c_category := water; c_createdAt := Some t |})
       [0; 1000; 2000; 3000; 4000; 5000; 6000; 7000; 8000; 9000])
  = [ {| pi_category := water;
         pi_frequency := 100;
         pi_trend := increasing;
         pi_peakDays := [str "Thursday"];
         pi_recommendation :=
           str "High volume of water complaints. Consider preventive maintenance schedule." |} ].
Proof.
  apply (analyzePatterns_frequency_trend (fun _ _ => 0)
           (map (fun t => {| c_category := water; c_createdAt := Some t |})
              [0; 1000; 2000; 3000; 4000; 5000; 6000; 7000; 8000; 9000])).
  - discriminate.
  - reflexivity.
  - intros c Hc. simpl in Hc.
    repeat (destruct Hc as [<- | Hc]; [split; reflexivity|]).
    destruct Hc.
Defined.

(** The share is computed on doubles: 29 complaints out of 200 give
    [14.499999999999998], hence 14. *)
Example frequency_on_doubles :
  Math_round (ofZ 29 / ofZ 200 * 100)%float = 14.
Proof. vm_compute. reflexivity. Qed.

(** Frequencies are rounded shares, so they need not add up to 100, and
    the order of equal frequencies is the order of first occurrence. *)
Example analyzePatterns_mixed :
  map (fun i => (pi_category i, pi_frequency i, pi_trend i))
    (analyzePatterns (fun _ _ => 0)
       (map (fun k => {| c_category := k; c_createdAt := Some 0 |})
          [internet; water; water; security; water; internet; other; water]))
  = [(water, 50, increasing); (internet, 25, increasing);
     (security, 13, stable); (other, 13, stable)].
Proof. vm_compute. reflexivity. Qed.

(** * Further properties of the code *)

(** ** Shape of the preprocessed text *)

Lemma blankUnit_kept (c : N) : isKept (blankUnit c) = true.
Proof. unfold blankUnit. destruct (isKept c) eqn:E; [exact E | reflexivity]. Qed.

Lemma trimStart_decomp (s : jsstring) :
  exists w, s = w ++ trimStart s /\ forallb isWhiteSpace w = true.
Proof.
  induction s as [|c s [w [E H]]]; simpl.
  - exists []; split; reflexivity.
  - destruct (isWhiteSpace c) eqn:Ec.
    + exists (c :: w). simpl. rewrite Ec, H. split; [congruence | reflexivity].
    + exists []. split; reflexivity.
Qed.

Lemma trimStart_head (s : jsstring) (c : N) (r : jsstring) :
  trimStart s = c :: r -> isWhiteSpace c = false.
Proof.
  induction s as [|x s IH]; simpl; [discriminate|].
  destruct (isWhiteSpace x) eqn:Ex; [exact IH|].
  intros H; injection H as <- _. exact Ex.
Qed.

Lemma trimEnd_decomp (s : jsstring) :
  exists w, s = trimEnd s ++ w /\ forallb isWhiteSpace w = true.
Proof.
  unfold trimEnd. destruct (trimStart_decomp (rev s)) as [w [E H]].
  exists (rev w). split; [|now rewrite forallb_rev].
  rewrite <- rev_app_distr, <- E. now rewrite rev_involutive.
Qed.

Lemma trimEnd_last (s init : jsstring) (c : N) :
  trimEnd s = init ++ [c] -> isWhiteSpace c = false.
Proof.
  unfold trimEnd. intros H. apply (f_equal (@rev N)) in H.
  rewrite rev_involutive, rev_app_distr in H. simpl in H.
  exact (trimStart_head _ _ _ H).
Qed.

Lemma trim_head (s : jsstring) (c : N) (r : jsstring) :
  trim s = c :: r -> isWhiteSpace c = false.
Proof.
  unfold trim. intros H.
  destruct (trimEnd_decomp (trimStart s)) as [w [E _]].
  rewrite H in E. simpl in E. exact (trimStart_head _ _ _ E).
Qed.

(** The trimmed string sits inside the original, between white space. *)
Lemma trim_decomp (s : jsstring) :
  exists w1 w2,
    s = w1 ++ trim s ++ w2
    /\ forallb isWhiteSpace w1 = true /\ forallb isWhiteSpace w2 = true.
Proof.
  destruct (trimStart_decomp s) as [w1 [E1 H1]].
  destruct (trimEnd_decomp (trimStart s)) as [w2 [E2 H2]].
  exists w1, w2. unfold trim. rewrite <- E2. auto.
Qed.

Lemma preprocessText_kept (text : jsstring) :
  Forall (fun c => isKept c = true) (preprocessText text).
Proof.
  unfold preprocessText.
  destruct (trim_decomp (replaceNonWord (toLowerCase text))) as [w1 [w2 [E _]]].
  assert (H : Forall (fun c => isKept c = true)
                (replaceNonWord (toLowerCase text))).
  { unfold replaceNonWord. apply Forall_map, Forall_forall.
    intros c _. apply blankUnit_kept. }
  rewrite E in H. apply Forall_app in H as [_ H].
  now apply Forall_app in H as [H _].
Qed.

Lemma preprocessText_head (text : jsstring) (c : N) (rest : jsstring) :
  preprocessText text = c :: rest -> isWhiteSpace c = false.
Proof. apply trim_head. Qed.

Lemma preprocessText_last (text init : jsstring) (c : N) :
  preprocessText text = init ++ [c] -> isWhiteSpace c = false.
Proof. unfold preprocessText, trim. apply trimEnd_last. Qed.

(** X1: the preprocessed text consists of letters [a-z], digits, hyphens
    and white space only, and neither starts nor ends with white space. *)
Theorem preprocessText_shape (text : jsstring) :
  Forall (fun c => isKept c = true) (preprocessText text)
  /\ (forall c rest, preprocessText text = c :: rest -> isWhiteSpace c = false)
  /\ (forall init c, preprocessText text = init ++ [c] ->
                     isWhiteSpace c = false).
Proof.
  split; [apply preprocessText_kept|]. split.
  - apply preprocessText_head.
  - apply preprocessText_last.
Qed.

Lemma preprocessText_shape_witness :
  preprocessText (str "  Hello, World!  ") = 104%N :: str "ello  world"
  /\ isWhiteSpace 104 = false.
Proof.
  split; [vm_compute; reflexivity|].
  apply (proj1 (proj2 (preprocessText_shape (str "  Hello, World!  ")))
           104%N (str "ello  world")).
  vm_compute. reflexivity.
Defined.

(** ** Idempotence and letter case *)

Lemma lowerUnit_kept (c : N) : isKept c = true -> lowerUnit c = [c].
Proof.
  intros H. unfold lowerUnit.
  destruct ((65 <=? c) && (c <=? 90))%N eqn:E1.
  - exfalso. apply andb_true_iff in E1 as [A B]. apply N.leb_le in A, B.
    revert H. unfold isKept, isWhiteSpace.
    rewrite !orb_true_iff, !andb_true_iff, !N.leb_le, !N.eqb_eq. lia.
  - destruct (N.eqb_spec c 8490) as [->|_]; [vm_compute in H; discriminate|].
    destruct (N.eqb_spec c 304) as [->|_]; [vm_compute in H; discriminate|].
    reflexivity.
Qed.

Lemma toLowerCase_kept (s : jsstring) :
  Forall (fun c => isKept c = true) s -> toLowerCase s = s.
Proof.
  induction 1 as [|c s Hc _ IH]; [reflexivity|].
  unfold toLowerCase in *. cbn [flat_map].
  now rewrite (lowerUnit_kept c Hc), IH.
Qed.

Lemma replaceNonWord_kept (s : jsstring) :
  Forall (fun c => isKept c = true) s -> replaceNonWord s = s.
Proof.
  induction 1 as [|c s Hc _ IH]; [reflexivity|].
  unfold replaceNonWord in *. cbn [map]. unfold blankUnit at 1.
  now rewrite Hc, IH.
Qed.

Lemma trimStart_id (s : jsstring) :
  (forall c r, s = c :: r -> isWhiteSpace c = false) -> trimStart s = s.
Proof.
  destruct s as [|c s]; [reflexivity|]. intros H. simpl.
  now rewrite (H c s eq_refl).
Qed.

Lemma trimEnd_id (s : jsstring) :
  (forall init c, s = init ++ [c] -> isWhiteSpace c = false) -> trimEnd s = s.
Proof.
  intros H. unfold trimEnd. rewrite trimStart_id; [apply rev_involutive|].
  intros c r E. apply (H (rev r) c).
  rewrite <- (rev_involutive s), E. reflexivity.
Qed.

Lemma preprocessText_again (text : jsstring) :
  preprocessText (preprocessText text) = preprocessText text.
Proof.
  pose proof (preprocessText_kept text) as Hk.
  unfold preprocessText at 1.
  rewrite (toLowerCase_kept _ Hk), (replaceNonWord_kept _ Hk).
  unfold trim. rewrite (trimStart_id _ (preprocessText_head text)).
  apply trimEnd_id. apply preprocessText_last.
Qed.

Lemma lowerUnit_idempotent (c : N) :
  flat_map lowerUnit (lowerUnit c) = lowerUnit c.
Proof.
  unfold lowerUnit at 2 3.
  destruct ((65 <=? c) && (c <=? 90))%N eqn:E1.
  - apply andb_true_iff in E1 as [A B]. apply N.leb_le in A, B.
    cbn [flat_map]. unfold lowerUnit.
    destruct (N.leb_spec 65 (c + 32)); destruct (N.leb_spec (c + 32) 90);
      destruct (N.eqb_spec (c + 32) 8490); destruct (N.eqb_spec (c + 32) 304);
      simpl; try reflexivity; lia.
  - destruct (N.eqb_spec c 8490) as [->|E2]; [reflexivity|].
    destruct (N.eqb_spec c 304) as [->|E3]; [reflexivity|].
    cbn [flat_map]. unfold lowerUnit. rewrite E1.
    destruct (N.eqb_spec c 8490); [contradiction|].
    destruct (N.eqb_spec c 304); [contradiction|]. reflexivity.
Qed.

Lemma toLowerCase_idempotent (s : jsstring) :
  toLowerCase (toLowerCase s) = toLowerCase s.
Proof.
  unfold toLowerCase. induction s as [|c s IH]; [reflexivity|].
  cbn [flat_map]. now rewrite flat_map_app, lowerUnit_idempotent, IH.
Qed.

Lemma scoreCategory_ext (t1 t2 : jsstring) :
  preprocessText t1 = preprocessText t2 ->
  forall c, scoreCategory t1 c = scoreCategory t2 c.
Proof. intros E c. unfold scoreCategory. now rewrite E. Qed.

(** The three classifiers look at the text through [preprocessText] only. *)
Lemma classifyCategory_ext (t1 t2 : jsstring) :
  preprocessText t1 = preprocessText t2 ->
  classifyCategory t1 = classifyCategory t2.
Proof.
  intros E. pose proof (scoreCategory_ext t1 t2 E) as Hs.
  unfold classifyCategory. rewrite !scoreAll_eq.
  replace (totalKeywordScore t2) with (totalKeywordScore t1).
  2:{ unfold totalKeywordScore. f_equal. apply map_ext. intros e. apply Hs. }
  replace (map (fun c => (c, scoreCategory t2 c)) activeCategories)
    with (map (fun c => (c, scoreCategory t1 c)) activeCategories).
  2:{ apply map_ext. intros c. now rewrite Hs. }
  reflexivity.
Qed.

Lemma classifyComplaint_ext (t1 d1 t2 d2 : jsstring)
  (departments : list DepartmentDescriptor) :
  preprocessText (t1 ++ [32%N] ++ d1) = preprocessText (t2 ++ [32%N] ++ d2) ->
  classifyComplaint t1 d1 departments = classifyComplaint t2 d2 departments.
Proof.
  intros E. unfold classifyComplaint.
  rewrite (classifyCategory_ext _ _ E).
  destruct (classifyCategory (t2 ++ [32%N] ++ d2)) as [r|]; [|reflexivity].
  unfold determinePriority, extractKeywords. now rewrite E.
Qed.

(** X2: preprocessing is idempotent, so the three classifiers and the
    tokenizer give the same answer on a text and on its preprocessed
    form; [analyzeSentiment] relies on it when it tokenizes a text that
    is preprocessed already. *)
Theorem preprocessText_idempotent (text : jsstring) :
  preprocessText (preprocessText text) = preprocessText text
  /\ tokenize (preprocessText text) = tokenize text
  /\ classifyCategory (preprocessText text) = classifyCategory text
  /\ extractKeywords (preprocessText text) = extractKeywords text
  /\ (forall c, determinePriority (preprocessText text) c
                = determinePriority text c).
Proof.
  pose proof (preprocessText_again text) as E.
  split; [exact E|]. split; [unfold tokenize; now rewrite E|].
  split; [|split].
  - apply classifyCategory_ext. exact E.
  - unfold extractKeywords. now rewrite E.
  - intros c. unfold determinePriority. now rewrite E.
Qed.

(** X3: classification ignores letter case: lower-casing the title and
    the description beforehand changes nothing in the result. *)
Theorem classifyComplaint_case_insensitive (title description : jsstring)
  (departments : list DepartmentDescriptor) :
  classifyComplaint (toLowerCase title) (toLowerCase description) departments
  = classifyComplaint title description departments.
Proof.
  apply classifyComplaint_ext. unfold preprocessText. do 2 f_equal.
  unfold toLowerCase. rewrite !flat_map_app.
  fold (toLowerCase title) (toLowerCase description).
  fold (toLowerCase (toLowerCase title)).
  fold (toLowerCase (toLowerCase description)).
  now rewrite !toLowerCase_idempotent.
Qed.

(** ** More text never loses a match *)

Lemma trimStart_keep_head (p : jsstring) (k : N) (kw q : jsstring) :
  isWhiteSpace k = false ->
  exists p', trimStart (p ++ (k :: kw) ++ q) = p' ++ (k :: kw) ++ q.
Proof.
  intros Hk. induction p as [|c p IH]; simpl.
  - rewrite Hk. exists []; reflexivity.
  - destruct (isWhiteSpace c); [exact IH | exists (c :: p); reflexivity].
Qed.

Lemma trim_keep_edges (p kw q : jsstring) :
  edgesNonWhite kw = true ->
  exists p' q', trim (p ++ kw ++ q) = p' ++ kw ++ q'.
Proof.
  unfold edgesNonWhite. intros H. apply andb_true_iff in H as [Hf Hl].
  destruct kw as [|k kw]; [discriminate|]. apply negb_true_iff in Hf.
  destruct (rev (k :: kw)) as [|l r] eqn:Er; [discriminate|].
  apply negb_true_iff in Hl.
  destruct (trimStart_keep_head p k kw q Hf) as [p' Ep].
  unfold trim. rewrite Ep. unfold trimEnd.
  rewrite !rev_app_distr, Er, <- app_assoc.
  destruct (trimStart_keep_head (rev q) l r (rev p') Hl) as [q' Eq].
  rewrite Eq, !rev_app_distr, <- Er, !rev_involutive, <- app_assoc.
  exists p', (rev q'). reflexivity.
Qed.

Lemma toLowerCase_app (a b : jsstring) :
  toLowerCase (a ++ b) = toLowerCase a ++ toLowerCase b.
Proof. apply flat_map_app. Qed.

(** A keyword found in a text is found in any text around it. *)
Lemma includes_preprocessText_mono (pre a post kw : jsstring) :
  edgesNonWhite kw = true ->
  includes (preprocessText a) kw = true ->
  includes (preprocessText (pre ++ a ++ post)) kw = true.
Proof.
  intros He H. apply includes_spec in H as [u [v E]].
  unfold preprocessText in *.
  destruct (trim_decomp (replaceNonWord (toLowerCase a))) as [w1 [w2 [Ea _]]].
  rewrite E in Ea.
  rewrite !toLowerCase_app. unfold replaceNonWord in *. rewrite !map_app, Ea.
  set (P := map blankUnit (toLowerCase pre)).
  set (Q := map blankUnit (toLowerCase post)).
  replace (P ++ (w1 ++ (u ++ kw ++ v) ++ w2) ++ Q)
    with ((P ++ w1 ++ u) ++ kw ++ (v ++ w2 ++ Q))
    by (rewrite <- !app_assoc; reflexivity).
  destruct (trim_keep_edges (P ++ w1 ++ u) kw (v ++ w2 ++ Q) He)
    as [p' [q' ->]].
  apply includes_spec; eauto.
Qed.

Lemma dictionaryKeywords_edges :
  forallb edgesNonWhite dictionaryKeywords = true.
Proof. vm_compute. reflexivity. Qed.

Lemma keywordsOf_dictionary (c : ComplaintCategory) (kw : jsstring) :
  In kw (keywordsOf c) -> In kw dictionaryKeywords.
Proof.
  intros H. unfold dictionaryKeywords, scanOrder.
  apply in_or_app; left. apply in_or_app; left.
  apply in_concat. exists (keywordsOf c). split; [|exact H].
  destruct c; cbv [keywordsOf orElse objGet ComplaintCategory_eqb
                   CATEGORY_KEYWORDS map snd]; simpl; auto 10.
Qed.

Lemma scoreLoop_mono (p1 p2 : jsstring) (kws : list jsstring) (a1 a2 : Z) :
  a1 <= a2 ->
  (forall kw, In kw kws -> includes p1 kw = true -> includes p2 kw = true) ->
  fold_left (scoreStep p1) kws a1 <= fold_left (scoreStep p2) kws a2.
Proof.
  revert a1 a2; induction kws as [|kw kws IH]; intros a1 a2 Ha H;
    [exact Ha|].
  cbn [fold_left]. apply IH; [|intros; apply H; [now right | assumption]].
  pose proof (keywordWeight_pos kw). unfold scoreStep.
  destruct (includes p1 kw) eqn:E1.
  - rewrite (H kw (or_introl eq_refl) E1). lia.
  - destruct (includes p2 kw); lia.
Qed.

Lemma determinePriority_urgent_hit (text : jsstring) (c : ComplaintCategory) :
  determinePriority text c = urgent ->
  exists kw, In kw URGENT_KEYWORDS /\ includes (preprocessText text) kw = true.
Proof.
  unfold determinePriority.
  destruct (existsb (includes (preprocessText text)) URGENT_KEYWORDS) eqn:E.
  - intros _. now apply existsb_includes.
  - destruct (existsb _ HIGH_KEYWORDS); [discriminate|].
    destruct (existsb _ LOW_KEYWORDS); [discriminate|].
    destruct c; discriminate.
Qed.

(** X4: text added before or after never loses a match: a dictionary
    keyword found in a text is found in every text that contains it, so
    no category score goes down and an urgent text stays urgent.  In
    particular what the title alone matches, title and description match
    together. *)
Theorem more_text_keeps_matches (pre text post : jsstring) :
  (forall kw, In kw dictionaryKeywords ->
              includes (preprocessText text) kw = true ->
              includes (preprocessText (pre ++ text ++ post)) kw = true)
  /\ (forall c, scoreCategory text c <= scoreCategory (pre ++ text ++ post) c)
  /\ (forall c c', determinePriority text c = urgent ->
                   determinePriority (pre ++ text ++ post) c' = urgent).
Proof.
  assert (Hmono : forall kw, In kw dictionaryKeywords ->
            includes (preprocessText text) kw = true ->
            includes (preprocessText (pre ++ text ++ post)) kw = true).
  { intros kw Hin. apply includes_preprocessText_mono.
    pose proof dictionaryKeywords_edges as T. rewrite forallb_forall in T.
    now apply T. }
  split; [exact Hmono|]. split.
  - intros c. unfold scoreCategory. apply scoreLoop_mono; [lia|].
    intros kw Hin. apply Hmono. exact (keywordsOf_dictionary c kw Hin).
  - intros c c' H.
    destruct (determinePriority_urgent_hit text c H) as [kw [Hin Hkw]].
    apply (urgent_wins _ c' kw Hin). apply Hmono; [|exact Hkw].
    unfold dictionaryKeywords, scanOrder.
    apply in_or_app; left. apply in_or_app; right. apply in_or_app; now left.
Qed.

Lemma more_text_keeps_matches_witness :
  determinePriority
    (str "Hello, " ++ str "gas leak in the kitchen" ++ str " - thanks") water
  = urgent.
Proof.
  apply (proj2 (proj2 (more_text_keeps_matches (str "Hello, ")
                         (str "gas leak in the kitchen") (str " - thanks")))
           other water).
  vm_compute. reflexivity.
Defined.

(** ** What a classification tells about the matches *)

Lemma totalKeywordScore_unfold (text : jsstring) :
  totalKeywordScore text
  = scoreCategory text water + scoreCategory text electrical
    + scoreCategory text internet + scoreCategory text infrastructure
    + scoreCategory text sanitation + scoreCategory text security
    + scoreCategory text maintenance.
Proof.
  assert (Ho : scoreCategory text other = 0) by reflexivity.
  unfold totalKeywordScore.
  change (map (fun entry => scoreCategory text (fst entry)) CATEGORY_KEYWORDS)
    with (map (scoreCategory text) (activeCategories ++ [other])).
  cbn [map app activeCategories fold_right]. lia.
Qed.

Lemma scoreLoop_match_pos (processed : jsstring) (kws : list jsstring) (a : Z)
  (kw : jsstring) :
  In kw kws -> includes processed kw = true ->
  a + 1 <= fold_left (scoreStep processed) kws a.
Proof.
  revert a; induction kws as [|k kws IH]; intros a; [intros []|].
  cbn [fold_left]. intros [-> | Hin] Hm.
  - pose proof (scoreLoop_bounds processed kws (scoreStep processed a kw)).
    pose proof (keywordWeight_pos kw). unfold scoreStep in *.
    rewrite Hm in *. lia.
  - specialize (IH (scoreStep processed a k) Hin Hm).
    pose proof (keywordWeight_pos k). unfold scoreStep in *.
    destruct (includes processed k); lia.
Qed.

Lemma scoreCategory_zero_iff (text : jsstring) (c : ComplaintCategory) :
  scoreCategory text c = 0
  <-> forall kw, In kw (keywordsOf c) ->
                 includes (preprocessText text) kw = false.
Proof.
  unfold scoreCategory. split.
  - intros E kw Hin. apply not_true_iff_false. intros Hm.
    pose proof (scoreLoop_match_pos _ _ 0 kw Hin Hm). lia.
  - apply scoreLoop_no_match.
Qed.

Lemma scoreCategory_pos_match (text : jsstring) (c : ComplaintCategory) :
  0 < scoreCategory text c ->
  exists kw, In kw (keywordsOf c) /\ includes (preprocessText text) kw = true.
Proof.
  intros H.
  destruct (existsb (includes (preprocessText text)) (keywordsOf c)) eqn:E.
  - now apply existsb_includes.
  - rewrite existsb_includes_false in E.
    apply scoreCategory_zero_iff in E. lia.
Qed.

Lemma totalKeywordScore_zero_iff (text : jsstring) :
  totalKeywordScore text = 0
  <-> forall c kw, In kw (keywordsOf c) ->
                   includes (preprocessText text) kw = false.
Proof.
  rewrite totalKeywordScore_unfold. split.
  - intros E c. apply scoreCategory_zero_iff.
    pose proof (scoreCategory_bounds text water).
    pose proof (scoreCategory_bounds text electrical).
    pose proof (scoreCategory_bounds text internet).
    pose proof (scoreCategory_bounds text infrastructure).
    pose proof (scoreCategory_bounds text sanitation).
    pose proof (scoreCategory_bounds text security).
    pose proof (scoreCategory_bounds text maintenance).
    destruct c; try lia. reflexivity.
  - intros H.
    rewrite !(proj2 (scoreCategory_zero_iff text _) (H _)). reflexivity.
Qed.

(** X5: [classifyCategory] answers [other] exactly when no keyword of
    any category occurs in the preprocessed text, and then with
    confidence 0.3; any other answer is a category of which at least one
    keyword occurs. *)
Theorem classifyCategory_other_iff (text : jsstring) :
  exists r,
    classifyCategory text = Some r
    /\ (cr_category r = other
        <-> forall c kw, In kw (keywordsOf c) ->
                         includes (preprocessText text) kw = false)
    /\ (cr_category r = other -> cr_confidence r = lit_0_3)
    /\ (cr_category r <> other ->
        exists kw, In kw (keywordsOf (cr_category r))
                   /\ includes (preprocessText text) kw = true).
Proof.
  destruct (Z.eq_dec (totalKeywordScore text) 0) as [E | E].
  - rewrite (classifyCategory_zero text E). eexists; split; [reflexivity|].
    cbn [cr_category cr_confidence]. split; [|split].
    + split; [intros _; now apply totalKeywordScore_zero_iff | reflexivity].
    + reflexivity.
    + congruence.
  - destruct (classifyCategory_nonzero text E) as [top [Ha [Hmax [_ ->]]]].
    eexists; split; [reflexivity|]. cbn [cr_category cr_confidence].
    assert (Hno : top <> other)
      by (intros ->; simpl in Ha; intuition discriminate).
    assert (Hpos : 0 < scoreCategory text top).
    { rewrite totalKeywordScore_unfold in E.
      pose proof (Hmax water). pose proof (Hmax electrical).
      pose proof (Hmax internet). pose proof (Hmax infrastructure).
      pose proof (Hmax sanitation). pose proof (Hmax security).
      pose proof (Hmax maintenance).
      pose proof (scoreCategory_bounds text water).
      pose proof (scoreCategory_bounds text electrical).
      pose proof (scoreCategory_bounds text internet).
      pose proof (scoreCategory_bounds text infrastructure).
      pose proof (scoreCategory_bounds text sanitation).
      pose proof (scoreCategory_bounds text security).
      pose proof (scoreCategory_bounds text maintenance). lia. }
    split; [|split].
    + split; [congruence|]. intros H.
      apply totalKeywordScore_zero_iff in H. contradiction.
    + congruence.
    + intros _. now apply scoreCategory_pos_match.
Qed.

Lemma confidence_floor_table :
  forallb (fun total =>
             forallb (fun top => confidenceFloorChecked top total)
                     (zrange 1 total))
          (zrange 1 136) = true.
Proof. vm_compute. reflexivity. Qed.

(** X6: when a keyword matches, the confidence is at least 0.18 (lower
    than the 0.3 given to [other]), and it is 1 exactly when the winning
    category holds at least four fifths of the total score. *)
Theorem confidence_of_a_match (text : jsstring) :
  totalKeywordScore text <> 0 ->
  exists r,
    classifyCategory text = Some r
    /\ PrimFloat.leb (ofZ 18 / 100) (cr_confidence r) = true
    /\ (PrimFloat.eqb (cr_confidence r) 1 = true
        <-> 4 * totalKeywordScore text
            <= 5 * scoreCategory text (cr_category r)).
Proof.
  intros E.
  destruct (classifyCategory_nonzero text E) as [top [_ [Hmax [_ ->]]]].
  eexists; split; [reflexivity|]. cbn [cr_category cr_confidence].
  pose proof (totalKeywordScore_bounds text) as Hb.
  pose proof (scoreCategory_bounds text top) as Ht.
  pose proof (maxScore_le_22 top) as H22.
  pose proof (score_le_total text top) as Hle.
  assert (H7 : totalKeywordScore text <= 7 * scoreCategory text top).
  { rewrite totalKeywordScore_unfold.
    pose proof (Hmax water). pose proof (Hmax electrical).
    pose proof (Hmax internet). pose proof (Hmax infrastructure).
    pose proof (Hmax sanitation). pose proof (Hmax security).
    pose proof (Hmax maintenance). lia. }
  assert (Hr1 : 1 <= totalKeywordScore text <= 136) by lia.
  assert (Hr2 : 1 <= scoreCategory text top <= totalKeywordScore text) by lia.
  pose proof confidence_floor_table as T.
  rewrite forallb_forall in T.
  specialize (T (totalKeywordScore text) (zrange_In _ _ _ Hr1)).
  rewrite forallb_forall in T.
  specialize (T (scoreCategory text top) (zrange_In _ _ _ Hr2)).
  unfold confidenceFloorChecked in T.
  replace (totalKeywordScore text <=? 7 * scoreCategory text top) with true in T
    by (symmetry; apply Z.leb_le; lia).
  replace (scoreCategory text top <=? 22) with true in T
    by (symmetry; apply Z.leb_le; lia).
  cbn [andb implb] in T. apply andb_true_iff in T as [T1 T2].
  split; [exact T1|]. apply eqb_prop in T2. rewrite T2. apply Z.leb_le.
Qed.

Lemma confidence_of_a_match_witness :
  exists r,
    classifyCategory (str "water pipe leak and a road") = Some r
    /\ PrimFloat.leb (ofZ 18 / 100) (cr_confidence r) = true
    /\ (PrimFloat.eqb (cr_confidence r) 1 = true
        <-> 4 * totalKeywordScore (str "water pipe leak and a road")
            <= 5 * scoreCategory (str "water pipe leak and a road")
                   (cr_category r)).
Proof.
  apply confidence_of_a_match. vm_compute. discriminate.
Defined.

Lemma filter_nil {A} (f : A -> bool) (l : list A) :
  filter f l = [] -> forall x, In x l -> f x = false.
Proof.
  induction l as [|y l IH]; simpl; [intros _ x []|].
  destruct (f y) eqn:E; [discriminate|].
  intros H x [<- | Hx]; [exact E | now apply IH].
Qed.

Lemma extractKeywords_nil (text : jsstring) :
  extractKeywords text = [] ->
  forall kw, In kw scanOrder -> includes (preprocessText text) kw = false.
Proof.
  rewrite extractKeywords_spec. intros H.
  apply filter_nil.
  destruct (filter (includes (preprocessText text)) scanOrder) as [|x l];
    [reflexivity | discriminate].
Qed.

(** X7: a result of [classifyComplaint] without keywords has category
    [other] and priority [normal] or [low]; a result with another
    category lists at least one keyword. *)
Theorem no_keywords_means_other (title description : jsstring)
  (departments : list DepartmentDescriptor) :
  exists r,
    classifyComplaint title description departments = Some r
    /\ (keywords r = [] ->
        category r = other /\ (priority r = normal \/ priority r = low))
    /\ (category r <> other -> keywords r <> []).
Proof.
  set (text := title ++ [32%N] ++ description).
  assert (Hnil : extractKeywords text = [] ->
            totalKeywordScore text = 0
            /\ (determinePriority text other = normal
                \/ determinePriority text other = low)).
  { intros H. pose proof (extractKeywords_nil text H) as Hno. split.
    - apply totalKeywordScore_zero_iff. intros c kw Hin. apply Hno.
      pose proof (keywordsOf_dictionary c kw Hin) as Hd.
      unfold scanOrder. apply in_or_app; left.
      apply in_concat. exists (keywordsOf c). split; [|exact Hin].
      destruct c; cbv [keywordsOf orElse objGet ComplaintCategory_eqb
                       CATEGORY_KEYWORDS map snd]; simpl; auto 10.
    - unfold determinePriority.
      replace (existsb (includes (preprocessText text)) URGENT_KEYWORDS)
        with false.
      2:{ symmetry. apply existsb_includes_false. intros kw Hin. apply Hno.
          unfold scanOrder. apply in_or_app; right. apply in_or_app; now left. }
      replace (existsb (includes (preprocessText text)) HIGH_KEYWORDS)
        with false.
      2:{ symmetry. apply existsb_includes_false. intros kw Hin. apply Hno.
          unfold scanOrder. apply in_or_app; right. apply in_or_app; now right. }
      destruct (existsb _ LOW_KEYWORDS); simpl; auto. }
  unfold classifyComplaint. fold text.
  destruct (classifyCategory_total text) as [cr Ecr]. rewrite Ecr.
  eexists; split; [reflexivity|]. cbn [keywords category priority].
  assert (Hfirst : extractKeywords text = [] ->
            cr_category cr = other
            /\ (determinePriority text (cr_category cr) = normal
                \/ determinePriority text (cr_category cr) = low)).
  { intros H. destruct (Hnil H) as [Hz Hp].
    rewrite (classifyCategory_zero text Hz) in Ecr. injection Ecr as <-.
    cbn [cr_category]. auto. }
  split; [exact Hfirst|].
  intros Hne H. apply Hne. now apply Hfirst.
Qed.

Lemma no_keywords_means_other_witness :
  exists r,
    classifyComplaint (str "Just a small thing") (str "nothing else") [] = Some r
    /\ category r = other /\ priority r = low.
Proof.
  destruct (no_keywords_means_other (str "Just a small thing")
              (str "nothing else") []) as [r [E [H _]]].
  exists r. split; [exact E|].
  vm_compute in E. injection E as <-. split; reflexivity.
Defined.

Lemma classifyCategory_other_iff_witness :
  exists r,
    classifyCategory (str "The lift is stuck") = Some r
    /\ exists kw, In kw (keywordsOf (cr_category r))
                  /\ includes (preprocessText (str "The lift is stuck")) kw = true.
Proof.
  destruct (classifyCategory_other_iff (str "The lift is stuck"))
    as [r [E [_ [_ H]]]].
  exists r. split; [exact E|]. apply H.
  vm_compute in E. injection E as <-. discriminate.
Defined.

(** ** Tokens and sentiment *)

Lemma splitWhitespace_cons (c : N) (s : jsstring) :
  splitWhitespace (c :: s)
  = if isWhiteSpace c then
      if match s with
         | c' :: _ => isWhiteSpace c'
         | [] => false
         end
      then splitWhitespace s
      else [] :: splitWhitespace s
    else
      match splitWhitespace s with
      | w :: ws => (c :: w) :: ws
      | [] => [[c]]
      end.
Proof. destruct s; reflexivity. Qed.

(** The pieces of a split: the first one is a prefix (empty when the
    string starts with white space) and every one is a stretch of the
    string without white space. *)
Lemma splitWhitespace_spec (s : jsstring) :
  exists w0 ws0,
    splitWhitespace s = w0 :: ws0
    /\ (exists post, s = w0 ++ post)
    /\ (forall c r, s = c :: r -> isWhiteSpace c = true -> w0 = [])
    /\ (forall w, In w (w0 :: ws0) ->
                  (exists pre post, s = pre ++ w ++ post)
                  /\ forallb (fun c => negb (isWhiteSpace c)) w = true).
Proof.
  induction s as [|c s (w0 & ws0 & E & [post0 Ep] & Hws & Hall)].
  - exists [], []. split; [reflexivity|]. split; [exists []; reflexivity|].
    split; [reflexivity|].
    intros w [<- | []]. split; [exists [], []|]; reflexivity.
  - rewrite splitWhitespace_cons. destruct (isWhiteSpace c) eqn:Ec.
    + assert (Hsub : forall w, In w (w0 :: ws0) ->
                (exists pre post, c :: s = pre ++ w ++ post)
                /\ forallb (fun c => negb (isWhiteSpace c)) w = true).
      { intros w Hw. destruct (Hall w Hw) as [[pre [post Es]] Hn].
        split; [|exact Hn]. exists (c :: pre), post. simpl. congruence. }
      destruct (match s with c' :: _ => isWhiteSpace c' | [] => false end)
        eqn:Es.
      * destruct s as [|c' s']; [discriminate|].
        pose proof (Hws c' s' eq_refl Es) as ->.
        exists [], ws0. rewrite E. split; [reflexivity|].
        split; [exists (c :: c' :: s'); reflexivity|].
        split; [reflexivity | exact Hsub].
      * exists [], (w0 :: ws0). rewrite E. split; [reflexivity|].
        split; [exists (c :: s); reflexivity|]. split; [reflexivity|].
        intros w [<- | Hw]; [|exact (Hsub w Hw)].
        split; [exists [], (c :: s) |]; reflexivity.
    + rewrite E. exists (c :: w0), ws0. split; [reflexivity|].
      split; [exists post0; simpl; congruence|]. split.
      * intros c1 r H1 H2. injection H1 as <- _. congruence.
      * intros w [<- | Hw].
        -- split; [exists [], post0; simpl; congruence|].
           simpl. rewrite Ec. simpl.
           exact (proj2 (Hall w0 (or_introl eq_refl))).
        -- destruct (Hall w (or_intror Hw)) as [[pre [post Es]] Hn].
           split; [|exact Hn]. exists (c :: pre), post. simpl. congruence.
Qed.

Lemma tokenize_tokens (text w : jsstring) :
  In w (tokenize text) ->
  w <> []
  /\ forallb isWordUnit w = true
  /\ includes (preprocessText text) w = true.
Proof.
  unfold tokenize. intros H. apply filter_In in H as [Hin Hne].
  destruct (splitWhitespace_spec (preprocessText text))
    as (w0 & ws0 & E & _ & _ & Hall).
  rewrite E in Hin. destruct (Hall w Hin) as [[pre [post Es]] Hn].
  split; [destruct w; [discriminate | congruence]|]. split.
  - pose proof (preprocessText_kept text) as Hk. rewrite Es in Hk.
    apply Forall_app in Hk as [_ Hk]. apply Forall_app in Hk as [Hk _].
    rewrite Forall_forall in Hk. rewrite forallb_forall in Hn.
    apply forallb_forall. intros c Hc. unfold isWordUnit.
    now rewrite (Hk c Hc), (Hn c Hc).
  - apply includes_spec; eauto.
Qed.

(** X8: every token is a non-empty word of letters [a-z], digits and
    hyphens that occurs in the preprocessed text; a text that is empty
    once preprocessed has no token. *)
Theorem tokenize_words (text : jsstring) :
  (forall w, In w (tokenize text) ->
             w <> []
             /\ forallb isWordUnit w = true
             /\ includes (preprocessText text) w = true)
  /\ (preprocessText text = [] -> tokenize text = []).
Proof.
  split; [intros w; apply tokenize_tokens|].
  intros E. unfold tokenize. rewrite E. reflexivity.
Qed.

Lemma tokenize_words_witness :
  tokenize (str "  Terrible, AWFUL service -- but fixed!  ")
  = map str ["terrible"; "awful"; "service"; "--"; "but"; "fixed"]%string
  /\ includes
       (preprocessText (str "  Terrible, AWFUL service -- but fixed!  "))
       (str "awful") = true.
Proof.
  split; [vm_compute; reflexivity|].
  apply (proj1 (tokenize_words
                  (str "  Terrible, AWFUL service -- but fixed!  "))).
  vm_compute. auto.
Defined.

Lemma sentimentLoop_spec (tokens : list jsstring) (a : Z) :
  fold_left sentimentStep tokens a
  = a - tokensIn NEGATIVE_WORDS tokens + tokensIn POSITIVE_WORDS tokens.
Proof.
  unfold tokensIn.
  revert a; induction tokens as [|t tokens IH]; intros a; [simpl; lia|].
  cbn [fold_left filter]. rewrite IH. unfold sentimentStep.
  destruct (arrIncludes NEGATIVE_WORDS t);
    destruct (arrIncludes POSITIVE_WORDS t); cbn [List.length]; lia.
Qed.

(** X9: the sentiment depends only on how many tokens are positive words
    and how many are negative words: [negative] needs at least two more
    negative than positive ones, [positive] at least one more positive
    than negative, everything else is [neutral]; a single negative word
    is therefore neutral. *)
Theorem analyzeSentiment_by_counts (text : jsstring) :
  let tokens := tokenize text in
  let p := tokensIn POSITIVE_WORDS tokens in
  let n := tokensIn NEGATIVE_WORDS tokens in
  (analyzeSentiment text = sentimentNegative <-> p + 2 <= n)
  /\ (analyzeSentiment text = sentimentPositive <-> n < p)
  /\ (analyzeSentiment text = sentimentNeutral <-> p <= n <= p + 1).
Proof.
  intros tokens p n.
  assert (Es : fold_left sentimentStep (tokenize (preprocessText text)) 0
               = 0 - n + p).
  { unfold tokenize. rewrite preprocessText_again.
    fold (tokenize text). apply sentimentLoop_spec. }
  unfold analyzeSentiment. cbv zeta. rewrite !Es.
  destruct (Z.ltb_spec (0 - n + p) (-1)); destruct (Z.ltb_spec 0 (0 - n + p));
    repeat split; intros; try discriminate; try reflexivity; lia.
Qed.

Lemma analyzeSentiment_by_counts_witness :
  analyzeSentiment (str "Terrible service") = sentimentNeutral
  /\ analyzeSentiment (str "Terrible, awful service") = sentimentNegative.
Proof.
  split.
  - apply (proj2 (proj2 (analyzeSentiment_by_counts (str "Terrible service")))).
    vm_compute. split; discriminate.
  - apply (proj1 (analyzeSentiment_by_counts (str "Terrible, awful service"))).
    vm_compute. discriminate.
Defined.

(** ** More on deadlines and statuses *)

(** X10: [isSLABreached] and [getSLAStatus] agree: the first is true
    exactly when the second answers [breached]; an invalid deadline is
    never reported as breached by either. *)
Theorem isSLABreached_iff_status (deadline : Date) (now : Z) :
  (isSLABreached deadline now = true <-> getSLAStatus deadline now = breached)
  /\ isSLABreached None now = false
  /\ getSLAStatus None now = ok.
Proof.
  split; [|split; reflexivity].
  destruct deadline as [d|].
  - rewrite getSLAStatus_eq. unfold isSLABreached, getTime, msPerHour.
    destruct (Z.ltb_spec d now); destruct (Z.ltb_spec (d - now) 0);
      destruct (Z.ltb_spec (d - now) (4 * 3600000));
      split; intros; try reflexivity; try discriminate; lia.
  - split; discriminate.
Qed.

(** X11: for a fixed deadline the status only gets worse as time passes,
    from [ok] to [warning] to [breached], and never comes back. *)
Theorem getSLAStatus_monotone (deadline : Date) (now1 now2 : Z) :
  now1 <= now2 ->
  statusRank (getSLAStatus deadline now1)
  <= statusRank (getSLAStatus deadline now2).
Proof.
  intros H. destruct deadline as [d|]; [|simpl; lia].
  rewrite !getSLAStatus_eq. unfold msPerHour.
  repeat match goal with
    | |- context [?a <? ?b] => destruct (Z.ltb_spec a b)
    end; simpl; lia.
Qed.

Lemma getSLAStatus_monotone_witness :
  statusRank (getSLAStatus (Some 1700000000000) 1699990000000)
  <= statusRank (getSLAStatus (Some 1700000000000) 1700000000001).
Proof. apply getSLAStatus_monotone. lia. Defined.

(** X12: in a time zone of constant offset a deadline is a whole number
    of hours away from [createdAt], for every [slaHours] up to 2.5e9
    hours either way; and for a [slaHours] that is not negative it is
    [createdAt] plus [slaHours] rounded down to whole hours (or an
    Invalid Date beyond the range of [Date]).  The second part is stated
    for binary fractions of moderate size, on which the double sum
    [getHours() + slaHours] is exact. *)
Theorem calculateSLADeadline_floor (LocalTZA : Z -> bool -> Z)
  (offset createdAt : Z) (slaHours : Q) :
  (forall t b, LocalTZA t b = offset) ->
  Z.abs createdAt <= 8640000000000000 ->
  Z.abs offset <= msPerDay ->
  ((Qabs slaHours <= 2500000000)%Q ->
   forall d, calculateSLADeadline LocalTZA (Some createdAt) slaHours = Some d ->
             exists k, d = createdAt + k * msPerHour)
  /\ ((0 <= slaHours)%Q ->
      (slaHours <= 1048576)%Q ->
      (Z.pos (Qden slaHours) | 2 ^ 20) ->
      calculateSLADeadline LocalTZA (Some createdAt) slaHours
      = TimeClip (createdAt + Qfloor slaHours * msPerHour)).
Proof.
  intros Htz Ht Ho.
  pose proof (time_fields (createdAt + offset)) as [Hh _].
  set (h := HourFromTime (createdAt + offset)) in *.
  split.
  - intros Hq d.
    apply Qabs_Qle_condition in Hq. destruct Hq as [Hq1 Hq2].
    set (k := ToIntegerOrInfinity (roundNumber (inject_Z h + slaHours))).
    assert (Hk1 : k <= h + 2500000000).
    { apply hourSum_le; [lia|].
      replace (h + 2500000000 - h) with 2500000000 by ring. exact Hq2. }
    assert (Hk2 : h - 2500000000 <= k).
    { apply hourSum_ge; [lia|].
      replace (h - 2500000000 - h) with (- 2500000000) by ring. exact Hq1. }
    rewrite (calculateSLADeadline_eq _ offset createdAt (k - h))
      by (try assumption; fold h; fold k; lia).
    intros E. apply TimeClip_Some in E. destruct E as [-> _].
    eexists; reflexivity.
  - intros Hq0 Hq1 Hden.
    pose proof (Qfloor_resp_le _ _ Hq0) as F0.
    pose proof (Qfloor_resp_le _ _ Hq1) as F1.
    change 0%Q with (inject_Z 0) in F0.
    change 1048576%Q with (inject_Z 1048576) in F1.
    rewrite Qfloor_Z in F0, F1.
    apply (calculateSLADeadline_eq _ offset); try assumption; [|lia].
    apply hourSum_floor; assumption.
Qed.

Lemma calculateSLADeadline_floor_witness :
  calculateSLADeadline (fun _ _ => 19800000) (Some 1700000000123) (7 # 2)
  = Some (1700000000123 + 3 * msPerHour).
Proof.
  rewrite (proj2 (calculateSLADeadline_floor (fun _ _ => 19800000) 19800000
                    1700000000123 (7 # 2) (fun _ _ => eq_refl)
                    ltac:(vm_compute; discriminate)
                    ltac:(vm_compute; discriminate)));
    [reflexivity | discriminate | discriminate | exists (2 ^ 19); reflexivity].
Defined.

(** X13: whole numbers of hours add up: the deadline of a deadline is
    the deadline for the sum, as long as the first one is a valid date
    and each number of hours is within 2.5e9, where the sums of
    [MakeTime] are exact. *)
Theorem calculateSLADeadline_compose (LocalTZA : Z -> bool -> Z)
  (offset createdAt a b : Z) :
  (forall t b, LocalTZA t b = offset) ->
  Z.abs createdAt <= 8640000000000000 ->
  Z.abs offset <= msPerDay ->
  Z.abs a <= 2500000000 ->
  Z.abs b <= 2500000000 ->
  Z.abs (a + b) <= 2500000000 ->
  Z.abs (createdAt + a * msPerHour) <= 8640000000000000 ->
  calculateSLADeadline LocalTZA
    (calculateSLADeadline LocalTZA (Some createdAt) (inject_Z a)) (inject_Z b)
  = calculateSLADeadline LocalTZA (Some createdAt) (inject_Z (a + b)).
Proof.
  intros Htz Ht Ho Ha Hb Hab Hr.
  rewrite (calculateSLADeadline_int _ offset createdAt a Htz Ht Ho Ha).
  rewrite (TimeClip_in_range _ Hr).
  rewrite !(calculateSLADeadline_int _ offset) by assumption.
  f_equal. ring.
Qed.

Lemma calculateSLADeadline_compose_witness :
  calculateSLADeadline (fun _ _ => 0)
    (calculateSLADeadline (fun _ _ => 0) (Some 1700000000000) (inject_Z 24))
    (inject_Z (-6))
  = calculateSLADeadline (fun _ _ => 0) (Some 1700000000000) (inject_Z 18).
Proof.
  apply (calculateSLADeadline_compose (fun _ _ => 0) 0 1700000000000 24 (-6)).
  - reflexivity.
  - vm_compute. discriminate.
  - vm_compute. discriminate.
  - vm_compute. discriminate.
  - vm_compute. discriminate.
  - vm_compute. discriminate.
  - vm_compute. discriminate.
Defined.

(** Beyond 2.5e9 hours the two sides differ by the rounding of
    [MakeTime]. *)
Example calculateSLADeadline_compose_rounded :
  calculateSLADeadline (fun _ _ => 0)
    (calculateSLADeadline (fun _ _ => 0) (Some (-8639999999999999))
       (inject_Z 4799999999))
    (inject_Z (-4799999999))
  = Some (-8640000000000000)
  /\ calculateSLADeadline (fun _ _ => 0) (Some (-8639999999999999))
       (inject_Z (4799999999 + -4799999999))
     = Some (-8639999999999999).
Proof. vm_compute. split; reflexivity. Qed.

(** ** Truncation *)

(** X14: [truncate] leaves a string of at most [length] units alone;
    a longer one is cut to its first [length] units followed by three
    dots, so that the result has [length + 3] units and can be longer
    than the original; it is never more than 3 units longer. *)
Theorem truncate_length (s : jsstring) (n : Z) :
  (Z.of_nat (List.length s) <= n -> truncate s n = s)
  /\ (0 <= n < Z.of_nat (List.length s) ->
      truncate s n = firstn (Z.to_nat n) s ++ str "..."
      /\ Z.of_nat (List.length (truncate s n)) = n + 3)
  /\ Z.of_nat (List.length (truncate s n)) <= Z.of_nat (List.length s) + 3.
Proof.
  unfold truncate, sliceFromStart.
  destruct (Z.ltb_spec n (Z.of_nat (List.length s))) as [Hlt | Hge].
  - split; [lia|]. split.
    + intros [H0 _]. destruct (Z.ltb_spec n 0); [lia|].
      rewrite Z.min_l by lia. split; [reflexivity|].
      rewrite length_app, length_firstn. simpl. lia.
    + rewrite length_app, length_firstn. simpl.
      destruct (Z.ltb_spec n 0); lia.
  - split; [reflexivity|]. split; [lia | lia].
Qed.

Lemma truncate_length_witness :
  truncate (str "abcd") 3 = str "abc..."
  /\ Z.of_nat (List.length (truncate (str "abcd") 3)) = 6.
Proof.
  destruct (proj1 (proj2 (truncate_length (str "abcd") 3))) as [E L];
    [simpl; lia|].
  split; [rewrite E; reflexivity | exact L].
Defined.

(** ** Peak days *)

Lemma objGet_Some_In {K V : Type} (keqb : K -> K -> bool)
  (keqb_eq : forall a b, keqb a b = true <-> a = b)
  (o : list (K * V)) (k : K) (v : V) :
  objGet keqb o k = Some v -> In (k, v) o.
Proof.
  induction o as [|[k0 v0] o IH]; simpl; [discriminate|].
  destruct (keqb k0 k) eqn:E.
  - apply keqb_eq in E; subst. intros H; injection H as <-. now left.
  - intros H. right. now apply IH.
Qed.

Lemma StronglySorted_app_le {A} (R : A -> A -> Prop) (l1 l2 : list A) :
  StronglySorted R (l1 ++ l2) ->
  forall x y, In x l1 -> In y l2 -> R x y.
Proof.
  induction l1 as [|a l1 IH]; simpl; [intros _ x y []|].
  intros H x y [<- | Hx] Hy; inversion H as [|? ? Hs Hf]; subst.
  - rewrite Forall_forall in Hf. apply Hf. apply in_or_app; now right.
  - now apply IH.
Qed.

Section PeakDays.

Variable LocalTZA : Z -> bool -> Z.

Lemma countStep_snd (st : CountState) (c : Complaint) :
  snd (countStep LocalTZA st c) = bumpDay LocalTZA (snd st) c.
Proof. destruct st; reflexivity. Qed.

Lemma countLoop_snd (cs : list Complaint) (st : CountState) :
  snd (fold_left (countStep LocalTZA) cs st)
  = fold_left (bumpDay LocalTZA) cs (snd st).
Proof.
  revert st; induction cs as [|c cs IH]; intros st; simpl; [reflexivity|].
  now rewrite IH, countStep_snd.
Qed.

Lemma bumpDay_get (bd : list (ComplaintCategory * list (jsstring * Z)))
  (c : Complaint) (k : ComplaintCategory) :
  objGet ComplaintCategory_eqb (bumpDay LocalTZA bd c) k
  = if ComplaintCategory_eqb (c_category c) k then
      let dayMap := orElse (objGet ComplaintCategory_eqb bd (c_category c)) [] in
      let day := weekdayLong LocalTZA (c_createdAt c) in
      Some (objSet JsString.eqb dayMap day
              (orElse (objGet JsString.eqb dayMap day) 0 + 1))
    else objGet ComplaintCategory_eqb bd k.
Proof.
  unfold bumpDay, countStep. cbn [snd].
  rewrite (objGet_objSet _ ComplaintCategory_eqb_eq).
  destruct (objGet ComplaintCategory_eqb bd (c_category c)) eqn:E.
  - rewrite E. reflexivity.
  - rewrite !(objGet_objSet _ ComplaintCategory_eqb_eq).
    rewrite ComplaintCategory_eqb_refl. cbn [orElse].
    now destruct (ComplaintCategory_eqb (c_category c) k).
Qed.

Lemma bumpDay_NoDup (bd : list (ComplaintCategory * list (jsstring * Z)))
  (c : Complaint) :
  NoDup (map fst bd) -> NoDup (map fst (bumpDay LocalTZA bd c)).
Proof.
  intros H. unfold bumpDay, countStep. cbn [snd].
  apply (objSet_NoDup _ ComplaintCategory_eqb_eq).
  destruct (objGet ComplaintCategory_eqb bd (c_category c)); [exact H|].
  now apply (objSet_NoDup _ ComplaintCategory_eqb_eq).
Qed.

Lemma dayCountOf_nonneg (cs : list Complaint) (k : ComplaintCategory)
  (d : jsstring) : 0 <= dayCountOf LocalTZA cs k d.
Proof. unfold dayCountOf. lia. Qed.

Lemma dayCountOf_snoc (cs : list Complaint) (c : Complaint)
  (k : ComplaintCategory) (d : jsstring) :
  dayCountOf LocalTZA (cs ++ [c]) k d
  = dayCountOf LocalTZA cs k d
    + (if ComplaintCategory_eqb (c_category c) k
          && JsString.eqb (weekdayLong LocalTZA (c_createdAt c)) d
       then 1 else 0).
Proof.
  unfold dayCountOf. rewrite filter_app, length_app. simpl.
  destruct (ComplaintCategory_eqb (c_category c) k
            && JsString.eqb (weekdayLong LocalTZA (c_createdAt c)) d);
    simpl; lia.
Qed.

(** After the counting loop [categoryByDay] holds, for every category
    that occurs, the number of its complaints on each weekday. *)
Lemma dayLoop_invariant (cs : list Complaint) :
  NoDup (map fst (fold_left (bumpDay LocalTZA) cs []))
  /\ forall k,
       dayMapOk LocalTZA cs k
         (orElse (objGet ComplaintCategory_eqb
                    (fold_left (bumpDay LocalTZA) cs []) k) []).
Proof.
  induction cs as [|c cs [IHn IHg]] using rev_ind.
  - split; [constructor|]. intros k. split; [constructor | reflexivity].
  - rewrite fold_left_app. cbn [fold_left].
    split; [now apply bumpDay_NoDup|].
    intros k. rewrite bumpDay_get.
    destruct (ComplaintCategory_eqb (c_category c) k) eqn:E.
    + apply ComplaintCategory_eqb_eq in E; subst k. cbn [orElse].
      destruct (IHg (c_category c)) as [Hnd Hget]. split.
      * now apply (objSet_NoDup _ jseqb_eq).
      * intros d. rewrite (objGet_objSet _ jseqb_eq), dayCountOf_snoc.
        rewrite ComplaintCategory_eqb_refl. cbn [andb].
        pose proof (dayCountOf_nonneg cs (c_category c) d).
        destruct (JsString.eqb (weekdayLong LocalTZA (c_createdAt c)) d) eqn:Ed.
        -- apply jseqb_eq in Ed; subst d. rewrite Hget.
           destruct (Z.eqb_spec (dayCountOf LocalTZA cs (c_category c)
                                   (weekdayLong LocalTZA (c_createdAt c))) 0)
             as [E0|E0];
             destruct (Z.eqb_spec (dayCountOf LocalTZA cs (c_category c)
                                     (weekdayLong LocalTZA (c_createdAt c)) + 1) 0);
             try lia; simpl; [now rewrite E0 | reflexivity].
        -- rewrite Hget, Z.add_0_r. reflexivity.
    + destruct (IHg k) as [Hnd Hget]. split; [exact Hnd|].
      intros d. rewrite dayCountOf_snoc, E. cbn [andb].
      rewrite Z.add_0_r. apply Hget.
Qed.

Lemma categoryCountOf_some_day (cs : list Complaint) (k : ComplaintCategory) :
  0 < categoryCountOf cs k -> exists d, 0 < dayCountOf LocalTZA cs k d.
Proof.
  unfold categoryCountOf, dayCountOf.
  induction cs as [|c cs IH]; simpl; [lia|].
  destruct (ComplaintCategory_eqb (c_category c) k) eqn:E.
  - intros _. exists (weekdayLong LocalTZA (c_createdAt c)).
    rewrite jseqb_refl. simpl. lia.
  - intros H. destruct (IH H) as [d Hd]. exists d. simpl. exact Hd.
Qed.

(** The peak days computed from a weekday bucket. *)
Lemma peakDays_of_dayMap (cs : list Complaint) (k : ComplaintCategory)
  (dayMap : list (jsstring * Z)) :
  dayMapOk LocalTZA cs k dayMap ->
  0 < categoryCountOf cs k ->
  let peakDays := map fst (firstn 2 (sort (fun a b => snd b - snd a) dayMap)) in
  peakDays <> []
  /\ (List.length peakDays <= 2)%nat
  /\ NoDup peakDays
  /\ (forall d, In d peakDays -> 0 < dayCountOf LocalTZA cs k d)
  /\ (forall d d', In d peakDays -> ~ In d' peakDays ->
                   dayCountOf LocalTZA cs k d' <= dayCountOf LocalTZA cs k d)
  /\ (forall d1 d2, peakDays = [d1; d2] ->
                    dayCountOf LocalTZA cs k d2 <= dayCountOf LocalTZA cs k d1).
Proof.
  intros [Hnd Hget] Hpos peakDays.
  set (sorted := sort (fun a b => snd b - snd a) dayMap) in *.
  pose proof (sort_perm snd dayMap) as Hperm. fold sorted in Hperm.
  pose proof (sort_sorted snd dayMap) as Hsorted. fold sorted in Hsorted.
  assert (Hentry : forall d n, In (d, n) dayMap ->
            n = dayCountOf LocalTZA cs k d /\ 0 < n).
  { intros d n Hin. apply (objGet_In _ jseqb_eq _ _ _ Hnd) in Hin.
    rewrite Hget in Hin. pose proof (dayCountOf_nonneg cs k d).
    destruct (Z.eqb_spec (dayCountOf LocalTZA cs k d) 0); [discriminate|].
    injection Hin as <-. lia. }
  assert (Hsplit : sorted = firstn 2 sorted ++ skipn 2 sorted)
    by (symmetry; apply firstn_skipn).
  assert (Hpeak : forall d, In d peakDays ->
            exists n, In (d, n) (firstn 2 sorted)).
  { intros d Hd. unfold peakDays in Hd. apply in_map_iff in Hd as [[d0 n] [E H]].
    simpl in E; subst d0. eauto. }
  assert (Hfirst : forall x, In x (firstn 2 sorted) -> In x dayMap).
  { intros x Hx. apply (Permutation_in _ Hperm). rewrite Hsplit.
    apply in_or_app; now left. }
  split; [|split; [|split; [|split; [|split]]]].
  - destruct (categoryCountOf_some_day cs k Hpos) as [d Hd].
    assert (Hin : In (d, dayCountOf LocalTZA cs k d) dayMap).
    { apply (objGet_Some_In _ jseqb_eq). rewrite Hget.
      destruct (Z.eqb_spec (dayCountOf LocalTZA cs k d) 0); [lia | reflexivity]. }
    apply (Permutation_in _ (Permutation_sym Hperm)) in Hin.
    unfold peakDays. destruct sorted as [|x sorted']; [destruct Hin|].
    simpl. discriminate.
  - unfold peakDays. rewrite length_map. apply firstn_le_length.
  - unfold peakDays. rewrite <- firstn_map.
    apply (NoDup_app_remove_r _ (skipn 2 (map fst sorted))).
    rewrite firstn_skipn.
    apply (Permutation_NoDup (Permutation_map fst (Permutation_sym Hperm))).
    exact Hnd.
  - intros d Hd. destruct (Hpeak d Hd) as [n Hn].
    destruct (Hentry d n (Hfirst _ Hn)) as [<- H]. exact H.
  - intros d d' Hd Hd'. destruct (Hpeak d Hd) as [n Hn].
    destruct (Hentry d n (Hfirst _ Hn)) as [En _].
    pose proof (dayCountOf_nonneg cs k d').
    destruct (Z.eq_dec (dayCountOf LocalTZA cs k d') 0) as [E0|E0].
    { pose proof (dayCountOf_nonneg cs k d). lia. }
    assert (Hin : In (d', dayCountOf LocalTZA cs k d') sorted).
    { apply (Permutation_in _ (Permutation_sym Hperm)).
      apply (objGet_Some_In _ jseqb_eq). rewrite Hget.
      destruct (Z.eqb_spec (dayCountOf LocalTZA cs k d') 0);
        [contradiction | reflexivity]. }
    rewrite Hsplit in Hin. apply in_app_or in Hin as [Hin | Hin].
    { exfalso. apply Hd'. unfold peakDays. apply in_map_iff.
      exists (d', dayCountOf LocalTZA cs k d'). split; [reflexivity | exact Hin]. }
    rewrite Hsplit in Hsorted.
    pose proof (StronglySorted_app_le _ _ _ Hsorted _ _ Hn Hin) as Hle.
    simpl in Hle. lia.
  - intros d1 d2 E. unfold peakDays in E.
    destruct (firstn 2 sorted) as [|[e1 n1] [|[e2 n2] [|]]] eqn:Ef;
      try discriminate.
    injection E as -> ->.
    destruct (Hentry d1 n1 (Hfirst _ (or_introl eq_refl))) as [<- _].
    destruct (Hentry d2 n2 (Hfirst _ (or_intror (or_introl eq_refl))))
      as [<- _].
    rewrite Hsplit in Hsorted. simpl in Hsorted.
    inversion Hsorted as [|? ? _ Hf]; subst.
    inversion Hf; subst. simpl in *. assumption.
Qed.

(** X15: the peak days of an insight are the one or two weekdays on
    which the category had the most complaints: each had at least one,
    the first had at least as many as the second, and no other weekday
    had more than either of them. *)
Theorem analyzePatterns_peakDays (complaints : list Complaint)
  (i : PatternInsight) :
  In i (analyzePatterns LocalTZA complaints) ->
  let count := dayCountOf LocalTZA complaints (pi_category i) in
  pi_peakDays i <> []
  /\ (List.length (pi_peakDays i) <= 2)%nat
  /\ NoDup (pi_peakDays i)
  /\ (forall d, In d (pi_peakDays i) -> 0 < count d)
  /\ (forall d d', In d (pi_peakDays i) -> ~ In d' (pi_peakDays i) ->
                   count d' <= count d)
  /\ (forall d1 d2, pi_peakDays i = [d1; d2] -> count d2 <= count d1).
Proof.
  unfold analyzePatterns.
  pose proof (countLoop_fst LocalTZA complaints ([], [])) as Hfst.
  pose proof (countLoop_snd complaints ([], [])) as Hsnd.
  destruct (fold_left (countStep LocalTZA) complaints ([], []))
    as [categoryCount categoryByDay].
  cbn [fst snd] in Hfst, Hsnd. subst categoryCount categoryByDay.
  intros Hin.
  apply (Permutation_in _ (sort_perm pi_frequency _)) in Hin.
  apply in_map_iff in Hin as [[k n] [<- Hkn]].
  apply countLoop_entry in Hkn as [-> Hpos].
  cbn [insightFor pi_category pi_peakDays].
  apply peakDays_of_dayMap; [|exact Hpos].
  apply dayLoop_invariant.
Qed.

End PeakDays.

Lemma analyzePatterns_peakDays_witness :
  exists i,
    analyzePatterns (fun _ _ => 0)
      (map (fun t => {| c_category := water; c_createdAt := Some t |})
         [0; 86400000; 0; 172800000; 86400000; 0]) = [i]
    /\ pi_peakDays i = [str "Thursday"; str "Friday"]
    /\ pi_peakDays i <> [].
Proof.
  eexists. split; [vm_compute; reflexivity|]. split; [reflexivity|].
  apply (analyzePatterns_peakDays (fun _ _ => 0)
           (map (fun t => {| c_category := water; c_createdAt := Some t |})
              [0; 86400000; 0; 172800000; 86400000; 0])).
  vm_compute. left. reflexivity.
Defined.

(** ** Routing a new complaint *)

Lemma find_map {A B} (f : B -> bool) (g : A -> B) (l : list A) :
  find f (map g l) = option_map g (find (fun x => f (g x)) l).
Proof.
  induction l as [|x l IH]; simpl; [reflexivity|].
  destruct (f (g x)); [reflexivity | exact IH].
Qed.

Lemma classifyComplaint_total (title description : jsstring)
  (departments : list DepartmentDescriptor) :
  exists r,
    classifyComplaint title description departments = Some r
    /\ suggestedDepartmentId r
       = option_map dept_id
           (find (fun d => arrIncludes (dept_categories d)
                             (categoryName (category r))) departments).
Proof.
  unfold classifyComplaint.
  destruct (classifyCategory_total (title ++ [32%N] ++ description)) as [cr ->].
  eexists; split; reflexivity.
Qed.

(** The department [createComplaint] picks, in terms of the list. *)
Lemma findDepartment_cases (suggested : option jsstring)
  (c : ComplaintCategory) (departments : list Department) :
  match findDepartment suggested c departments with
  | None => departments = []
  | Some d =>
      In d departments
      /\ (handles d c = true
          \/ suggested = Some (d_id d)
          \/ (hd_error departments = Some d
              /\ forall d', In d' departments ->
                            handles d' c = false
                            /\ suggested <> Some (d_id d')))
  end.
Proof.
  unfold findDepartment.
  set (p := fun d : Department =>
              match suggested with
              | Some i => JsString.eqb (d_id d) i
              | None => false
              end || arrIncludes (d_categories d) (categoryName c)).
  destruct (find p departments) as [d|] eqn:Ef.
  - apply find_some in Ef as [Hin Hp]. split; [exact Hin|].
    unfold p in Hp. apply orb_true_iff in Hp as [Hp | Hp]; [|now left].
    right; left. destruct suggested as [i|]; [|discriminate].
    apply jseqb_eq in Hp. now rewrite Hp.
  - pose proof (find_none p departments Ef) as Hnone.
    destruct departments as [|d0 ds]; [reflexivity|].
    cbn [hd_error]. split; [now left|]. right; right. split; [reflexivity|].
    intros d' Hd'. specialize (Hnone d' Hd'). unfold p in Hnone.
    apply orb_false_iff in Hnone as [H1 H2]. split; [exact H2|].
    intros ->. now rewrite jseqb_refl in H1.
Qed.

(** When a department is suggested, the one picked for the same category
    carries the suggested id. *)
Lemma findDepartment_suggested (c : ComplaintCategory)
  (departments : list Department) (i : jsstring) :
  option_map d_id (find (fun d => handles d c) departments) = Some i ->
  exists d,
    findDepartment (Some i) c departments = Some d
    /\ In d departments
    /\ d_id d = i
    /\ (NoDup (map d_id departments) -> handles d c = true).
Proof.
  unfold findDepartment, handles.
  induction departments as [|a l IH]; simpl; [discriminate|].
  destruct (arrIncludes (d_categories a) (categoryName c)) eqn:Ha.
  - simpl. intros H; injection H as <-. rewrite orb_true_r.
    exists a. auto.
  - intros H. rewrite orb_false_r.
    destruct (JsString.eqb (d_id a) i) eqn:Ei.
    + apply jseqb_eq in Ei. exists a. repeat split; auto.
      intros Hnd. exfalso. inversion Hnd as [|? ? Hni _]; subst.
      apply Hni.
      destruct (find (fun d => arrIncludes (d_categories d) (categoryName c)) l)
        as [d|] eqn:Ef; [|discriminate].
      injection H as H. apply find_some in Ef as [Hin _].
      apply in_map_iff. exists d. auto.
    + destruct (IH H) as [d [Ed [Hin [Hid Hh]]]].
      destruct (find (fun d1 => JsString.eqb (d_id d1) i
                                || arrIncludes (d_categories d1) (categoryName c))
                  l) as [d'|] eqn:Ef.
      * injection Ed as ->. exists d. repeat split; auto.
        intros Hnd. apply Hh. now inversion Hnd.
      * exfalso.
        destruct (find (fun d => arrIncludes (d_categories d) (categoryName c)) l)
          as [d1|] eqn:Ef1; [|discriminate].
        apply find_some in Ef1 as [Hin1 Hh1].
        pose proof (find_none _ _ Ef d1 Hin1) as Hn. simpl in Hn.
        rewrite Hh1, orb_true_r in Hn. discriminate.
Qed.

Lemma createComplaint_eq (LocalTZA : Z -> bool -> Z) (now : Z)
  (formData : ComplaintFormData) (departments : list Department) :
  exists ai,
    classifyComplaint (fd_title formData) (fd_description formData)
      (map descriptorOf departments) = Some ai
    /\ suggestedDepartmentId ai
       = option_map d_id
           (find (fun d => handles d (category ai)) departments)
    /\ createComplaint LocalTZA now formData departments
       = let c := orElse (fd_category formData) (category ai) in
         let dept := findDepartment (suggestedDepartmentId ai) c departments in
         Some {| doc_category := c;
                 doc_departmentId := orElse (option_map d_id dept) [];
                 doc_departmentName := orElse (option_map d_name dept) [];
                 doc_priority := orElse (fd_priority formData) (priority ai);
                 doc_aiConfidence := confidence ai;
                 doc_aiSuggestedCategory := category ai;
                 doc_keywords := keywords ai;
                 doc_slaDeadline :=
                   option_map
                     (fun d => calculateSLADeadline LocalTZA (Some now)
                                 (d_slaHours d)) dept |}.
Proof.
  destruct (classifyComplaint_total (fd_title formData)
              (fd_description formData) (map descriptorOf departments))
    as [ai [E Hs]].
  exists ai. split; [exact E|]. split.
  - rewrite Hs, find_map. unfold handles.
    now destruct (find _ departments).
  - unfold createComplaint. rewrite E. reflexivity.
Qed.

(** X16: [createComplaint] stores the user's category and priority when
    given and the classifier's otherwise; with no department it stores an
    empty department and no deadline; with at least one it always assigns
    one of them and a deadline computed from its SLA, and it falls back
    to the first department only when none handles the category and none
    was suggested. *)
Theorem createComplaint_assigns (LocalTZA : Z -> bool -> Z) (now : Z)
  (formData : ComplaintFormData) (departments : list Department) :
  exists doc ai,
    classifyComplaint (fd_title formData) (fd_description formData)
      (map descriptorOf departments) = Some ai
    /\ createComplaint LocalTZA now formData departments = Some doc
    /\ doc_category doc = orElse (fd_category formData) (category ai)
    /\ doc_priority doc = orElse (fd_priority formData) (priority ai)
    /\ (departments = [] ->
        doc_departmentId doc = [] /\ doc_slaDeadline doc = None)
    /\ (departments <> [] ->
        exists d,
          In d departments
          /\ doc_departmentId doc = d_id d
          /\ doc_departmentName doc = d_name d
          /\ doc_slaDeadline doc
             = Some (calculateSLADeadline LocalTZA (Some now) (d_slaHours d))
          /\ (handles d (doc_category doc) = true
              \/ suggestedDepartmentId ai = Some (d_id d)
              \/ (hd_error departments = Some d
                  /\ suggestedDepartmentId ai = None
                  /\ forall d', In d' departments ->
                                handles d' (doc_category doc) = false))).
Proof.
  destruct (createComplaint_eq LocalTZA now formData departments)
    as [ai [E [Hs ->]]].
  eexists; exists ai. split; [exact E|]. split; [reflexivity|].
  cbn [doc_category doc_priority doc_departmentId doc_departmentName
       doc_slaDeadline].
  split; [reflexivity|]. split; [reflexivity|].
  pose proof (findDepartment_cases (suggestedDepartmentId ai)
                (orElse (fd_category formData) (category ai)) departments) as Hc.
  destruct (findDepartment (suggestedDepartmentId ai)
              (orElse (fd_category formData) (category ai)) departments)
    as [d|].
  - split.
    + intros ->. destruct Hc as [[] _].
    + intros _. destruct Hc as [Hin Hwhy]. exists d.
      split; [exact Hin|]. split; [reflexivity|]. split; [reflexivity|].
      split; [reflexivity|].
      destruct Hwhy as [H | [H | [Hhd Hall]]]; [now left | now right; left|].
      right; right. split; [exact Hhd|]. split.
      * destruct (suggestedDepartmentId ai) as [i|] eqn:Ei; [|reflexivity].
        exfalso.
        destruct (find (fun d0 => handles d0 (category ai)) departments)
          as [d1|] eqn:Ef; [|discriminate].
        injection Hs as ->. apply find_some in Ef as [Hin1 _].
        exact (proj2 (Hall d1 Hin1) eq_refl).
      * intros d' Hd'. exact (proj1 (Hall d' Hd')).
  - split; [intros _; split; reflexivity | intros Hne; contradiction].
Qed.

Lemma createComplaint_assigns_witness :
  exists doc,
    createComplaint (fun _ _ => 0) 1700000000000
      {| fd_title := str "Stray dogs"; fd_description := str "near the market";
         fd_category := None; fd_priority := None |}
      [ {| d_id := str "w"; d_name := str "Water board";
           d_categories := [str "water"]; d_slaHours := 24 |} ]
    = Some doc
    /\ doc_category doc = other
    /\ doc_departmentId doc = str "w".
Proof.
  destruct (createComplaint_assigns (fun _ _ => 0) 1700000000000
              {| fd_title := str "Stray dogs";
                 fd_description := str "near the market";
                 fd_category := None; fd_priority := None |}
              [ {| d_id := str "w"; d_name := str "Water board";
                   d_categories := [str "water"]; d_slaHours := 24 |} ])
    as [doc [ai [_ [E [_ [_ [_ H]]]]]]].
  exists doc. split; [exact E|].
  destruct (H ltac:(discriminate)) as [d [[<- | []] [Hid _]]].
  split; [|exact Hid].
  vm_compute in E. injection E as <-. reflexivity.
Defined.

(** X17: when the user keeps the category the classifier found and the
    classifier suggested a department, the complaint goes to a department
    with the suggested id; if the ids are distinct, that department
    handles the category. *)
Theorem createComplaint_follows_suggestion (LocalTZA : Z -> bool -> Z)
  (now : Z) (formData : ComplaintFormData) (departments : list Department)
  (ai : AIClassificationResult) (doc : ComplaintDoc) (i : jsstring) :
  classifyComplaint (fd_title formData) (fd_description formData)
    (map descriptorOf departments) = Some ai ->
  createComplaint LocalTZA now formData departments = Some doc ->
  doc_category doc = category ai ->
  suggestedDepartmentId ai = Some i ->
  doc_departmentId doc = i
  /\ (NoDup (map d_id departments) ->
      exists d,
        In d departments
        /\ doc_departmentId doc = d_id d
        /\ doc_departmentName doc = d_name d
        /\ handles d (doc_category doc) = true).
Proof.
  intros Eai Edoc Ecat Esug.
  destruct (createComplaint_eq LocalTZA now formData departments)
    as [ai' [E [Hs Hdoc]]].
  rewrite Eai in E. injection E as <-.
  rewrite Edoc in Hdoc. cbv zeta in Hdoc. injection Hdoc as ->.
  cbn [doc_category doc_departmentId doc_departmentName] in *.
  rewrite Ecat, Esug. rewrite Esug in Hs. symmetry in Hs.
  destruct (findDepartment_suggested (category ai) departments i Hs)
    as [d [-> [Hin [Hid Hh]]]].
  cbn [option_map orElse]. split; [exact Hid|].
  intros Hnd. exists d. auto.
Qed.

Lemma createComplaint_follows_suggestion_witness :
  exists doc,
    createComplaint (fun _ _ => 0) 1700000000000
      {| fd_title := str "Street light broken";
         fd_description := str "no power since monday";
         fd_category := None; fd_priority := None |}
      [ {| d_id := str "r"; d_name := str "Roads";
           d_categories := [str "infrastructure"]; d_slaHours := 48 |};
        {| d_id := str "g"; d_name := str "Grid";
           d_categories := [str "electrical"]; d_slaHours := 12 |} ]
    = Some doc
    /\ doc_departmentId doc = str "g".
Proof.
  eexists. split; [vm_compute; reflexivity|].
  eapply (createComplaint_follows_suggestion (fun _ _ => 0) 1700000000000
            {| fd_title := str "Street light broken";
               fd_description := str "no power since monday";
               fd_category := None; fd_priority := None |}
            [ {| d_id := str "r"; d_name := str "Roads";
                 d_categories := [str "infrastructure"]; d_slaHours := 48 |};
              {| d_id := str "g"; d_name := str "Grid";
                 d_categories := [str "electrical"]; d_slaHours := 12 |} ]).
  - vm_compute. reflexivity.
  - vm_compute. reflexivity.
  - reflexivity.
  - reflexivity.
Defined.

(** The user's category can send a complaint to a department that does
    not handle it: the suggested department still matches by its id. *)
Example createComplaint_override :
  option_map (fun doc => (doc_category doc, doc_departmentId doc))
    (createComplaint (fun _ _ => 0) 1700000000000
       {| fd_title := str "no power"; fd_description := str "since monday";
          fd_category := Some water; fd_priority := None |}
       [ {| d_id := str "g"; d_name := str "Grid";
            d_categories := [str "electrical"]; d_slaHours := 12 |};
         {| d_id := str "w"; d_name := str "Water board";
            d_categories := [str "water"]; d_slaHours := 24 |} ])
  = Some (water, str "g").
Proof. vm_compute. reflexivity. Qed.

(** X18: a complaint starts with the status its department's SLA gives
    it: with a whole number of hours (within 2.5e9, where the sums of
    [MakeTime] are exact), in a time zone of constant offset, the
    status at the moment of creation is [ok] from 4 hours up, [warning]
    below 4 hours and [breached] below 0. *)
Theorem status_at_creation (LocalTZA : Z -> bool -> Z) (offset now n : Z) :
  (forall t b, LocalTZA t b = offset) ->
  Z.abs now <= 8640000000000000 ->
  Z.abs offset <= msPerDay ->
  Z.abs n <= 2500000000 ->
  Z.abs (now + n * msPerHour) <= 8640000000000000 ->
  getSLAStatus (calculateSLADeadline LocalTZA (Some now) (inject_Z n)) now
  = if n <? 0 then breached else if n <? 4 then warning else ok.
Proof.
  intros Htz Ht Ho Hn Hr.
  rewrite (calculateSLADeadline_int _ offset now n Htz Ht Ho Hn).
  rewrite (TimeClip_in_range _ Hr).
  rewrite getSLAStatus_eq. unfold msPerHour.
  repeat match goal with
    | |- context [?a <? ?b] => destruct (Z.ltb_spec a b)
    end; try reflexivity; lia.
Qed.

Lemma status_at_creation_witness :
  getSLAStatus
    (calculateSLADeadline (fun _ _ => 19800000) (Some 1700000000000)
       (inject_Z 2)) 1700000000000
  = warning.
Proof.
  apply (status_at_creation (fun _ _ => 19800000) 19800000 1700000000000 2).
  - reflexivity.
  - vm_compute. discriminate.
  - vm_compute. discriminate.
  - vm_compute. discriminate.
  - vm_compute. discriminate.
Defined.

Lemma isSLABreached_iff_status_witness :
  isSLABreached (Some 1700000000000) 1700000000001 = true.
Proof.
  apply (proj1 (isSLABreached_iff_status (Some 1700000000000) 1700000000001)).
  reflexivity.
Defined.
